(** * Nostra Alpha loan-state computation: event routing, fold order and the
      checkpointed ingestion loop

    A shallow embedding of
    [data_handler/handlers/loan_states/nostra_alpha/run.py]
    (class [NostraAlphaStateComputation]) together with the properties of
    its router ([process_event]), its batch fold ([process_data]) and its
    pagination loop ([run]).

    Python objects that the program mutates in place are threaded through
    the functions explicitly: the computation object [self], the ledger
    [NostraAlphaState] instance and the persistence layer.  A Python call
    that may raise returns either a [Result] or, when the object it works on
    survives the exception, the object together with an optional exception. *)

From stdpp Require Import gmap strings list sorting.

Local Open Scope Z_scope.

(** ** Exceptions and fallible calls *)

Inductive Exn : Type :=
  | KeyError (key : list string)
  | AttributeError (name : string)
  | RuntimeError (msg : string).

Inductive Result (A : Type) : Type :=
  | Ok (a : A)
  | Raise (e : Exn).

Arguments Ok {A} a.
Arguments Raise {A} e.

(** ** Event records

    One dict of the list returned by the DeRisk API, which is also one row of
    the [DataFrame] built from it.  [run.py] reads four columns:
    [from_address] and [key_name] by subscript, [block_number] with
    [event.get] (so a missing or null value is tolerated), and [id] as the
    second sort key.  The remaining columns are only read by the ledger.

    Every record carries the four keys, as the upstream source delivers
    them, so the four columns exist in the [DataFrame] of any non-empty
    batch; [block_number = None] is a null value under its key.  Block
    numbers are integers below [2^53]: the [float64] column that pandas
    builds when a value of the batch is null holds them exactly. *)

Record Event : Type := mkEvent {
  from_address : string;
  key_name : string;
  block_number : option Z;
  id : Z;
  payload : list Z;
}.

(** ** Log lines written through [logger] *)

Inductive LogRecord : Type :=
  | LogFailedEvent (e : Exn)       (* logger.exception, line 100 *)
  | LogDefaultLastBlock (b : Z)    (* line 111 *)
  | LogReachedLastBlock (b : Z)    (* line 114 *)
  | LogNoData (b : Z)              (* line 123 *)
  | LogProcessedUpTo (b : Z)       (* line 138 *)
  | LogMaxRetries (b : Z).         (* line 142 *)

(** ** What [run.py] imports

    The ledger class [NostraAlphaState], the dispatch tables of
    [handlers.loan_states.nostra_alpha.events] and [handler_tools.constants],
    and the base class [LoanStateComputationBase] are not part of the file
    under study; the program is parameterised by them.

    A ledger method mutates the [NostraAlphaState] instance and may raise
    part-way: it returns the instance as the call left it, with the exception
    if there was one.  [state_getattr name] is [getattr(instance_state, name)],
    [None] standing for the [AttributeError] of an unknown method name. *)

Class Externals : Type := {
  NostraAlphaState : Type;
  LoanEntities : Type;
  DataFrame : Type;
  InterestRateResult : Type;
  Storage : Type;
  (* handlers.loan_states.nostra_alpha.events *)
  INTEREST_RATE_MODEL_ADDRESS : string;
  ADDRESSES_TO_EVENTS : gmap string string;
  EVENTS_METHODS_MAPPING : gmap (string * string) string;
  new_NostraAlphaState : NostraAlphaState;
  loan_entities : NostraAlphaState → LoanEntities;
  state_getattr :
    string → option (NostraAlphaState → Event → NostraAlphaState * option Exn);
  process_interest_rate_model_event :
    NostraAlphaState → Event → NostraAlphaState * option Exn;
  (* handler_tools.constants *)
  NOSTRA_EVENTS_MAPPING : gmap string string;
  NOSTRA_ALPHA_ADDRESSES : list string;
  (* handlers.loan_states.abstractions.LoanStateComputationBase *)
  PAGINATION_SIZE : Z;
  add_interest_rate_data :
    InterestRateResult → NostraAlphaState → Event → Result InterestRateResult;
  get_result_df : LoanEntities → DataFrame;
  get_data : string → Z → Result (list Event);
  get_addresses_data : list string → Z → Result (list Event);
  save_data : Storage → DataFrame → Result Storage;
  save_interest_rate_data :
    Storage → InterestRateResult → Result (Storage * InterestRateResult);
}.

Section Program.
Context {E : Externals}.

(** ** The computation object

    The attributes of [self] that change while [run] executes, and the lines
    written to the logger. *)

Record Computation : Type := mkComputation {
  last_block : Z;
  interest_rate_result : InterestRateResult;
  log : list LogRecord;
}.

Definition set_last_block (b : Z) (c : Computation) : Computation :=
  {| last_block := b;
     interest_rate_result := interest_rate_result c;
     log := log c |}.

Definition set_interest_rate_result (h : InterestRateResult) (c : Computation)
  : Computation :=
  {| last_block := last_block c; interest_rate_result := h; log := log c |}.

Definition write_log (r : LogRecord) (c : Computation) : Computation :=
  {| last_block := last_block c;
     interest_rate_result := interest_rate_result c;
     log := log c ++ [r] |}.

(** Class attributes of [NostraAlphaStateComputation]. *)

Definition PROTOCOL_ADDRESSES : list string := NOSTRA_ALPHA_ADDRESSES.
Definition INTEREST_RATES_KEYS : list string := ["InterestStateUpdated"%string].
Definition EVENTS_MAPPING : gmap string string := NOSTRA_EVENTS_MAPPING.

(** ** [process_interest_rate_event] (lines 29-41) *)

Definition process_interest_rate_event
    (c : Computation) (nostra_state : NostraAlphaState) (event : Event)
  : Computation * NostraAlphaState * option Exn :=
  match process_interest_rate_model_event nostra_state event with
  | (s1, Some ex) => (c, s1, Some ex)
  | (s1, None) =>
      match add_interest_rate_data (interest_rate_result c) s1 event with
      | Ok h => (set_interest_rate_result h c, s1, None)
      | Raise ex => (c, s1, Some ex)
      end
  end.

(** ** [process_event] (lines 72-100)

    [process_event_try] is the body of the [try] block; [process_event] adds
    the [except Exception] handler, which logs and returns normally.  The
    truth test on [block_number] rejects a missing value and zero. *)

Definition block_guard (c : Computation) (event : Event) : option Z :=
  match block_number event with
  | Some bn => if decide (bn ≠ 0 ∧ last_block c ≤ bn) then Some bn else None
  | None => None
  end.

Definition process_event_try
    (c : Computation) (instance_state : NostraAlphaState)
    (method_name : string) (event : Event)
  : Computation * NostraAlphaState * option Exn :=
  if decide (from_address event = INTEREST_RATE_MODEL_ADDRESS) then
    process_interest_rate_event c instance_state event
  else
    match block_guard c event with
    | Some bn =>
        let c1 := set_last_block bn c in
        match ADDRESSES_TO_EVENTS !! from_address event with
        | None => (c1, instance_state, Some (KeyError [from_address event]))
        | Some event_type =>
            match EVENTS_METHODS_MAPPING !! (event_type, key_name event) with
            | None => (c1, instance_state, Some (KeyError [event_type; key_name event]))
            | Some name =>
                match state_getattr name with
                | None => (c1, instance_state, Some (AttributeError name))
                | Some method =>
                    let '(s1, r) := method instance_state event in (c1, s1, r)
                end
            end
        end
    | None => (c, instance_state, None)
    end.

Definition process_event
    (c : Computation) (instance_state : NostraAlphaState)
    (method_name : string) (event : Event)
  : Computation * NostraAlphaState :=
  match process_event_try c instance_state method_name event with
  | (c1, s1, None) => (c1, s1)
  | (c1, s1, Some ex) => (write_log (LogFailedEvent ex) c1, s1)
  end.

(** ** [process_data] (lines 43-70)

    [sort_values(["block_number", "id"])] orders the rows by block number,
    rows without one last, then by [id]; rows with equal keys keep their
    order.  It is one sort over all rows of the batch.  A [DataFrame] built
    from an empty list has no columns, so [df["key_name"]] raises
    [KeyError]; with the columns present (see [Event]) the filter and the
    sort of a non-empty batch do not raise.  The snapshot export
    [get_result_df] of the base class is taken as a total function of the
    ledger's [loan_entities].  [method_name] is computed for every row and
    passed on, and [process_event] does not read it. *)

Definition events_with_interest_rate : list string :=
  (map_to_list EVENTS_MAPPING).*1 ++ INTEREST_RATES_KEYS.

Definition isin (names : list string) (event : Event) : Prop :=
  key_name event ∈ names.

Global Instance isin_dec names event : Decision (isin names event).
Proof. unfold isin. apply _. Defined.

Definition row_le (a b : Event) : Prop :=
  match block_number a, block_number b with
  | Some x, Some y => x < y ∨ (x = y ∧ id a ≤ id b)
  | Some _, None => True
  | None, Some _ => False
  | None, None => id a ≤ id b
  end.

Global Instance row_le_dec a b : Decision (row_le a b).
Proof. unfold row_le. destruct (block_number a), (block_number b); apply _. Defined.

Fixpoint insert_row (x : Event) (l : list Event) : list Event :=
  match l with
  | [] => [x]
  | y :: l' => if decide (row_le x y) then x :: y :: l' else y :: insert_row x l'
  end.

Definition sort_values (l : list Event) : list Event := foldr insert_row [] l.

Definition sorted_df (data : list Event) : list Event :=
  sort_values (filter (isin events_with_interest_rate) data).

Definition method_name_of (row : Event) : string :=
  default EmptyString (EVENTS_MAPPING !! key_name row).

Definition fold_rows (c : Computation) (s : NostraAlphaState) (rows : list Event)
  : Computation * NostraAlphaState :=
  foldl (λ cs row, process_event cs.1 cs.2 (method_name_of row) row) (c, s) rows.

Definition process_data (c : Computation) (data : list Event)
  : Result (Computation * DataFrame) :=
  match data with
  | [] => Raise (KeyError ["key_name"%string])
  | _ =>
      let '(c1, s1) := fold_rows c new_NostraAlphaState (sorted_df data) in
      Ok (c1, get_result_df (loan_entities s1))
  end.

(** ** [run] (lines 102-142)

    The loop state is [self], the persistence layer and the local [retry].
    [iteration] is the loop body after the last-block test; an exception
    leaves the body (and [run]) with the objects as they are at that point. *)

Record LoopState : Type := mkLoopState {
  self : Computation;
  storage : Storage;
  retry : Z;
}.

Inductive Terminal : Type :=
  | DONE
  | RETRY_EXHAUSTED
  | CRASHED (e : Exn).

Definition empty_page (st : LoopState) : LoopState :=
  let c1 := write_log (LogNoData (last_block (self st))) (self st) in
  {| self := set_last_block (last_block c1 + PAGINATION_SIZE) c1;
     storage := storage st;
     retry := retry st + 1 |}.

Definition persist_and_advance
    (st : LoopState) (c1 : Computation) (processed_data : DataFrame)
  : LoopState * option Exn :=
  match save_data (storage st) processed_data with
  | Raise ex => ({| self := c1; storage := storage st; retry := retry st |}, Some ex)
  | Ok db1 =>
      match save_interest_rate_data db1 (interest_rate_result c1) with
      | Raise ex => ({| self := c1; storage := db1; retry := retry st |}, Some ex)
      | Ok (db2, h) =>
          let c2 := set_interest_rate_result h c1 in
          let c3 := set_last_block (last_block c2 + PAGINATION_SIZE) c2 in
          ({| self := write_log (LogProcessedUpTo (last_block c3)) c3;
              storage := db2;
              retry := 0 |}, None)
      end
  end.

Definition iteration (st : LoopState) : LoopState * option Exn :=
  match get_data INTEREST_RATE_MODEL_ADDRESS (last_block (self st)) with
  | Raise ex => (st, Some ex)
  | Ok interest_rate_data =>
      match get_addresses_data PROTOCOL_ADDRESSES (last_block (self st)) with
      | Raise ex => (st, Some ex)
      | Ok [] => (empty_page st, None)
      | Ok data =>
          let all_events_data := interest_rate_data ++ data in
          match process_data (self st) all_events_data with
          | Raise ex => (st, Some ex)
          | Ok (c1, processed_data) => persist_and_advance st c1 processed_data
          end
      end
  end.

Fixpoint run_loop (max_retries final_block : Z) (fuel : nat) (st : LoopState)
  : option (Terminal * LoopState) :=
  match fuel with
  | O => None
  | S fuel' =>
      if decide (retry st < max_retries) then
        if decide (final_block ≤ last_block (self st)) then
          Some (DONE,
                {| self := write_log (LogReachedLastBlock (last_block (self st))) (self st);
                   storage := storage st; retry := retry st |})
        else
          match iteration st with
          | (st1, None) => run_loop max_retries final_block fuel' st1
          | (st1, Some ex) => Some (CRASHED ex, st1)
          end
      else if decide (retry st = max_retries) then
        Some (RETRY_EXHAUSTED,
              {| self := write_log (LogMaxRetries (last_block (self st))) (self st);
                 storage := storage st; retry := retry st |})
      else Some (RETRY_EXHAUSTED, st)
  end.

(** [iterations n st]: the loop body executed [n] times in a row from [st],
    none of the executions raising. *)

Fixpoint iterations (n : nat) (st : LoopState) : option LoopState :=
  match n with
  | O => Some st
  | S n' =>
      match iteration st with
      | (st1, None) => iterations n' st1
      | (_, Some _) => None
      end
  end.

(** [fold_advance st]: by how much the fold of the page fetched at [st]
    moves [last_block]; a page without ordinary events is not folded.
    [fold_advances n st] adds these amounts over [n] iterations from [st]. *)

Definition fold_advance (st : LoopState) : Z :=
  match get_data INTEREST_RATE_MODEL_ADDRESS (last_block (self st)),
        get_addresses_data PROTOCOL_ADDRESSES (last_block (self st)) with
  | Ok interest_rate_data, Ok (d :: data) =>
      last_block
        (fold_rows (self st) new_NostraAlphaState
           (sorted_df (interest_rate_data ++ d :: data))).1
      - last_block (self st)
  | _, _ => 0
  end.

Fixpoint fold_advances (n : nat) (st : LoopState) : Z :=
  match n with
  | O => 0
  | S n' =>
      match iteration st with
      | (st1, None) => fold_advance st + fold_advances n' st1
      | (_, Some _) => 0
      end
  end.

Definition run_init (c : Computation) (db : Storage) : LoopState :=
  let c1 := set_last_block 10854 c in
  {| self := write_log (LogDefaultLastBlock (last_block c1)) c1;
     storage := db;
     retry := 0 |}.

Definition run (fuel : nat) (c : Computation) (db : Storage)
  : option (Terminal * LoopState) :=
  run_loop 1000000 647952 fuel (run_init c db).

End Program.

(** ** A concrete deployment

    A small instance of the imported parts, used to run the program on
    explicit batches.  The ledger is a journal that records, in order, every
    operation applied to it with the block number of the event; the snapshot
    is the journal itself; the persistence layer keeps the saved snapshots.
    The page size, the two upstream feeds and the availability of the
    persistence layer are left open. *)

Module Scenario.

Definition IRM : string := "0xIRM".
Definition MARKET : string := "0xMARKET".

Definition Journal : Type := list (string * option Z).

Definition record_op (name : string) (s : Journal) (event : Event)
  : Journal * option Exn :=
  (s ++ [(name, block_number event)], None).

Definition faulty_op (s : Journal) (event : Event) : Journal * option Exn :=
  (s, Some (RuntimeError "malformed payload")).

Definition getattr (name : string)
  : option (Journal → Event → Journal * option Exn) :=
  if decide (name = "process_mint"%string) then Some (record_op "mint")
  else if decide (name = "process_faulty"%string) then Some faulty_op
  else None.

Definition deployment (page : Z) (irm_feed ord_feed : Z → Result (list Event))
    (db_up : bool) : Externals := {|
  NostraAlphaState := Journal;
  LoanEntities := Journal;
  DataFrame := Journal;
  InterestRateResult := list (option Z);
  Storage := list Journal;
  INTEREST_RATE_MODEL_ADDRESS := IRM;
  ADDRESSES_TO_EVENTS := {[ MARKET := "collateral"%string ]};
  EVENTS_METHODS_MAPPING :=
    {[ ("collateral"%string, "Mint"%string) := "process_mint"%string;
       ("collateral"%string, "Faulty"%string) := "process_faulty"%string ]};
  new_NostraAlphaState := [];
  loan_entities := λ s, s;
  state_getattr := getattr;
  process_interest_rate_model_event := record_op "interest_rate_model";
  NOSTRA_EVENTS_MAPPING :=
    {[ "Mint"%string := "process_mint"%string;
       "Burn"%string := "process_burn"%string;
       "Faulty"%string := "process_faulty"%string ]};
  NOSTRA_ALPHA_ADDRESSES := [MARKET];
  PAGINATION_SIZE := page;
  add_interest_rate_data := λ h _ event, Ok (h ++ [block_number event]);
  get_result_df := λ s, s;
  get_data := λ _ b, irm_feed b;
  get_addresses_data := λ _ b, ord_feed b;
  save_data := λ db df,
    if db_up then Ok (db ++ [df]) else Raise (RuntimeError "storage unavailable");
  save_interest_rate_data := λ db _, Ok (db, []);
|}.

Definition no_events : Z → Result (list Event) := λ _, Ok [].

Definition only_at (b : Z) (events : list Event) : Z → Result (list Event) :=
  λ from_block, if decide (from_block = b) then Ok events else Ok [].

(** The example batch: a rate update at block 100 and a mint at block 99. *)
Definition rate_update_100 : Event :=
  mkEvent IRM "InterestStateUpdated" (Some 100) 1 [5].
Definition mint_99 : Event := mkEvent MARKET "Mint" (Some 99) 2 [10].

(** Events of the first page of a run, which starts at block 10854. *)
Definition mint_10900 : Event := mkEvent MARKET "Mint" (Some 10900) 1 [10].
Definition rate_update_10860 : Event :=
  mkEvent IRM "InterestStateUpdated" (Some 10860) 1 [5].
Definition faulty_10870 : Event := mkEvent MARKET "Faulty" (Some 10870) 1 [].

(** Records the router treats specially. *)
Definition rate_update_other_name : Event :=
  mkEvent IRM "RateChanged" (Some 100) 1 [5].
Definition burn_5 : Event := mkEvent MARKET "Burn" (Some 5) 1 [10].
Definition burn_50 : Event := mkEvent MARKET "Burn" (Some 50) 1 [10].
Definition mint_no_block : Event := mkEvent MARKET "Mint" None 3 [10].
Definition rate_update_no_block : Event :=
  mkEvent IRM "InterestStateUpdated" None 4 [5].

(** Deployments with fixed feeds. *)
Definition quiet : Externals := deployment 1000 no_events no_events true.

Definition first_page_mint : Externals :=
  deployment 1000 no_events (only_at 10854 [mint_10900]) true.
Definition rates_only : Externals :=
  deployment 1000 (only_at 10854 [rate_update_10860]) no_events true.
Definition storage_down : Externals :=
  deployment 1000 no_events (only_at 10854 [mint_10900]) false.
Definition faulty_page : Externals :=
  deployment 1000 (only_at 10854 [rate_update_10860])
    (only_at 10854 [faulty_10870; mint_10900]) true.
Definition small_pages : Externals := deployment 10 no_events no_events true.
Definition faulty_only : Externals :=
  deployment 1000 no_events (only_at 10854 [faulty_10870]) true.

Definition fresh (E : Externals) (h : InterestRateResult) (b : Z)
  : Computation :=
  {| last_block := b; interest_rate_result := h; log := [] |}.

(** A deployment whose persistence layer stores snapshots and rejects the
    rate history; the first page holds a mint at block 10900. *)
Definition rate_history_rejected : Externals := {|
  NostraAlphaState := Journal;
  LoanEntities := Journal;
  DataFrame := Journal;
  InterestRateResult := list (option Z);
  Storage := list Journal;
  INTEREST_RATE_MODEL_ADDRESS := IRM;
  ADDRESSES_TO_EVENTS := @ADDRESSES_TO_EVENTS quiet;
  EVENTS_METHODS_MAPPING := @EVENTS_METHODS_MAPPING quiet;
  new_NostraAlphaState := [];
  loan_entities := λ s, s;
  state_getattr := getattr;
  process_interest_rate_model_event := record_op "interest_rate_model";
  NOSTRA_EVENTS_MAPPING := @NOSTRA_EVENTS_MAPPING quiet;
  NOSTRA_ALPHA_ADDRESSES := [MARKET];
  PAGINATION_SIZE := 1000;
  add_interest_rate_data := λ h _ event, Ok (h ++ [block_number event]);
  get_result_df := λ s, s;
  get_data := λ _ _, Ok [];
  get_addresses_data := λ _ b, only_at 10854 [mint_10900] b;
  save_data := λ db df, Ok (db ++ [df]);
  save_interest_rate_data := λ _ _, Raise (RuntimeError "rate history rejected");
|}.

(** The loop state at the first iteration of [run]. *)
Definition start (E : Externals) (h : InterestRateResult) (db : Storage)
  : LoopState :=
  run_init (fresh E h 0) db.

End Scenario.

(** * Properties *)

Section Properties.
Context {E : Externals}.

Implicit Types (c : Computation) (s : NostraAlphaState) (st : LoopState).
Implicit Types (event row a b : Event) (rows data : list Event).

(** ** The row order of [sort_values] *)

Lemma row_le_total a b : row_le a b ∨ row_le b a.
Proof. unfold row_le. destruct (block_number a), (block_number b); lia. Qed.

Lemma row_le_trans a b d : row_le a b → row_le b d → row_le a d.
Proof.
  unfold row_le.
  destruct (block_number a), (block_number b), (block_number d); lia.
Qed.

Lemma insert_row_perm x l : insert_row x l ≡ₚ x :: l.
Proof.
  induction l as [|y l IH]; simpl; [done|].
  case_decide; [done|]. rewrite IH. apply Permutation_swap.
Qed.

Lemma sort_values_perm l : sort_values l ≡ₚ l.
Proof.
  induction l as [|x l IH]; simpl; [done|].
  by rewrite insert_row_perm, IH.
Qed.

Lemma insert_row_sorted x l :
  StronglySorted row_le l → StronglySorted row_le (insert_row x l).
Proof.
  induction 1 as [|y l Hl IH Hy]; simpl.
  - repeat constructor.
  - case_decide as Hxy.
    + constructor; [by constructor|].
      constructor; [done|].
      eapply Forall_impl; [exact Hy|]. intros z Hz. by eapply row_le_trans.
    + constructor; [done|].
      rewrite insert_row_perm. constructor; [|done].
      by destruct (row_le_total x y).
Qed.

Lemma sort_values_sorted l : StronglySorted row_le (sort_values l).
Proof.
  induction l as [|x l IH]; simpl; [constructor|]. by apply insert_row_sorted.
Qed.

Lemma sorted_positions l i j a b :
  StronglySorted row_le l →
  l !! i = Some a → l !! j = Some b → (i < j)%nat → row_le a b.
Proof.
  intros Hl. revert i j. induction Hl as [|x l Hl IH Hx]; intros i j Hi Hj Hij.
  - by rewrite lookup_nil in Hi.
  - destruct j as [|j]; [lia|]. simpl in Hj. destruct i as [|i]; simpl in Hi.
    + simplify_eq. rewrite Forall_forall in Hx. apply Hx.
      by eapply list_elem_of_lookup_2.
    + eapply IH; eauto with lia.
Qed.

(** C1 (as the code has it): the rows are folded in one ascending
    [(block_number, id)] order over the whole filtered batch, with no tier
    for interest-rate-model events: the fold order is a permutation of the
    rows that pass the [key_name] filter, and whenever one row has a
    strictly smaller [(block_number, id)] key than another, it is folded
    first, whichever of the two comes from the interest-rate-model address. *)
Theorem fold_order_is_block_id_order data :
  sorted_df data ≡ₚ filter (isin events_with_interest_rate) data ∧
  StronglySorted row_le (sorted_df data) ∧
  ∀ i j a b,
    sorted_df data !! i = Some a → sorted_df data !! j = Some b →
    ¬ row_le b a → (i < j)%nat.
Proof.
  split_and!.
  - apply sort_values_perm.
  - apply sort_values_sorted.
  - intros i j a b Hi Hj Hba.
    destruct (decide (i < j)%nat) as [|Hge]; [done|]. exfalso. apply Hba.
    destruct (decide (i = j)) as [Heq|Hne].
    + subst j. rewrite Hi in Hj. injection Hj as <-.
      by destruct (row_le_total a a).
    + eapply (sorted_positions _ j i); eauto using sort_values_sorted with lia.
Qed.

(** ** The router [process_event] *)

Lemma process_event_method_name c s m m' event :
  process_event c s m event = process_event c s m' event.
Proof. reflexivity. Qed.

Lemma process_interest_rate_event_ledger c s event :
  (process_interest_rate_event c s event).1.2
  = (process_interest_rate_model_event s event).1.
Proof.
  unfold process_interest_rate_event.
  destruct (process_interest_rate_model_event s event) as [s1 [ex|]]; [done|].
  by destruct (add_interest_rate_data _ _ _).
Qed.

Lemma process_interest_rate_event_last_block c s event :
  last_block (process_interest_rate_event c s event).1.1 = last_block c.
Proof.
  unfold process_interest_rate_event.
  destruct (process_interest_rate_model_event s event) as [s1 [ex|]]; [done|].
  by destruct (add_interest_rate_data _ _ _).
Qed.

Lemma process_event_irm c s m event :
  from_address event = INTEREST_RATE_MODEL_ADDRESS →
  process_event c s m event =
    match process_interest_rate_event c s event with
    | (c1, s1, None) => (c1, s1)
    | (c1, s1, Some ex) => (write_log (LogFailedEvent ex) c1, s1)
    end.
Proof.
  intros Hirm. unfold process_event, process_event_try. by rewrite decide_True.
Qed.

Lemma process_event_irm_ledger c s m event :
  from_address event = INTEREST_RATE_MODEL_ADDRESS →
  (process_event c s m event).2 = (process_interest_rate_model_event s event).1.
Proof.
  intros Hirm. rewrite process_event_irm by done.
  rewrite <- (process_interest_rate_event_ledger c).
  by destruct (process_interest_rate_event c s event) as [[c1 s1] [ex|]].
Qed.

Lemma process_event_irm_last_block c s m event :
  from_address event = INTEREST_RATE_MODEL_ADDRESS →
  last_block (process_event c s m event).1 = last_block c.
Proof.
  intros Hirm. rewrite process_event_irm by done.
  rewrite <- (process_interest_rate_event_last_block c s event).
  by destruct (process_interest_rate_event c s event) as [[c1 s1] [ex|]].
Qed.

Lemma block_guard_Some c event bn :
  block_guard c event = Some bn ↔
  block_number event = Some bn ∧ bn ≠ 0 ∧ last_block c ≤ bn.
Proof.
  unfold block_guard. destruct (block_number event) as [x|].
  - case_decide as Hx; split.
    + intros [= ->]. by destruct Hx.
    + by intros ([= ->] & _).
    + done.
    + intros ([= ->] & H0 & Hle). by destruct Hx.
  - split; [done|]. by intros [? _].
Qed.

Lemma block_guard_None c event :
  block_guard c event = None ↔
  block_number event = None ∨ block_number event = Some 0 ∨
  ∃ bn, block_number event = Some bn ∧ bn < last_block c.
Proof.
  unfold block_guard. destruct (block_number event) as [x|].
  - case_decide as Hx; split.
    + done.
    + intros [|[[= ->]|(bn & [= ->] & Hlt)]]; [done|lia|lia].
    + intros _. destruct (decide (x = 0)) as [->|]; [by auto|].
      right; right. exists x. split; [done|lia].
    + done.
  - split; [by left|done].
Qed.

Lemma process_event_dropped c s m event :
  from_address event ≠ INTEREST_RATE_MODEL_ADDRESS →
  block_guard c event = None →
  process_event c s m event = (c, s).
Proof.
  intros Hord Hguard. unfold process_event, process_event_try.
  by rewrite decide_False, Hguard.
Qed.

Lemma process_event_last_block_le c s m event :
  last_block c ≤ last_block (process_event c s m event).1.
Proof.
  destruct (decide (from_address event = INTEREST_RATE_MODEL_ADDRESS)) as [Hirm|Hord].
  - by rewrite process_event_irm_last_block.
  - unfold process_event, process_event_try. rewrite decide_False by done.
    destruct (block_guard c event) as [bn|] eqn:Hguard; [|done].
    apply block_guard_Some in Hguard as (_ & _ & Hle).
    destruct (ADDRESSES_TO_EVENTS !! _) as [event_type|]; [|done].
    destruct (EVENTS_METHODS_MAPPING !! _) as [name|]; [|done].
    destruct (state_getattr _) as [method|]; [|done].
    by destruct (method s event) as [s1 [ex|]].
Qed.

Lemma process_event_log c s m event :
  log c `prefix_of` log (process_event c s m event).1.
Proof.
  unfold process_event, process_event_try.
  case_decide.
  - unfold process_interest_rate_event.
    destruct (process_interest_rate_model_event s event) as [s1 [ex|]];
      [by apply prefix_app_r|].
    destruct (add_interest_rate_data _ _ _); [done|by apply prefix_app_r].
  - destruct (block_guard c event) as [bn|]; [|done].
    destruct (ADDRESSES_TO_EVENTS !! _) as [event_type|]; [|by apply prefix_app_r].
    destruct (EVENTS_METHODS_MAPPING !! _) as [name|]; [|by apply prefix_app_r].
    destruct (state_getattr _) as [method|]; [|by apply prefix_app_r].
    destruct (method s event) as [s1 [ex|]]; [by apply prefix_app_r|done].
Qed.

(** The ledger and the checkpoint after a record depend on [self] only
    through [last_block]. *)
Lemma process_event_frame c c' s m event :
  last_block c = last_block c' →
  (process_event c s m event).2 = (process_event c' s m event).2 ∧
  last_block (process_event c s m event).1
  = last_block (process_event c' s m event).1.
Proof.
  intros Hlb.
  destruct (decide (from_address event = INTEREST_RATE_MODEL_ADDRESS)) as [Hirm|Hord].
  - by rewrite !process_event_irm_ledger, !process_event_irm_last_block.
  - unfold process_event, process_event_try. rewrite !decide_False by done.
    unfold block_guard. rewrite <- Hlb.
    destruct (block_number event) as [bn|]; [|done].
    case_decide; [|done].
    destruct (ADDRESSES_TO_EVENTS !! _) as [event_type|]; [|done].
    destruct (EVENTS_METHODS_MAPPING !! _) as [name|]; [|done].
    destruct (state_getattr _) as [method|]; [|done].
    by destruct (method s event) as [s1 [ex|]].
Qed.

(** ** The batch fold *)

Lemma fold_rows_cons c s row rows :
  fold_rows c s (row :: rows)
  = fold_rows (process_event c s (method_name_of row) row).1
              (process_event c s (method_name_of row) row).2 rows.
Proof.
  unfold fold_rows. simpl.
  by destruct (process_event c s (method_name_of row) row).
Qed.

Lemma fold_rows_app c s rows1 rows2 :
  fold_rows c s (rows1 ++ rows2)
  = fold_rows (fold_rows c s rows1).1 (fold_rows c s rows1).2 rows2.
Proof.
  unfold fold_rows. rewrite foldl_app.
  by destruct (foldl _ (c, s) rows1).
Qed.

Lemma fold_rows_last_block_le c s rows :
  last_block c ≤ last_block (fold_rows c s rows).1.
Proof.
  revert c s. induction rows as [|row rows IH]; intros c s; [done|].
  rewrite fold_rows_cons.
  etrans; [apply (process_event_last_block_le c s (method_name_of row) row)|].
  apply IH.
Qed.

Lemma fold_rows_log c s rows : log c `prefix_of` log (fold_rows c s rows).1.
Proof.
  revert c s. induction rows as [|row rows IH]; intros c s; [done|].
  rewrite fold_rows_cons.
  etrans; [apply (process_event_log c s (method_name_of row) row)|]. apply IH.
Qed.

Lemma fold_rows_frame c c' s rows :
  last_block c = last_block c' →
  (fold_rows c s rows).2 = (fold_rows c' s rows).2 ∧
  last_block (fold_rows c s rows).1 = last_block (fold_rows c' s rows).1.
Proof.
  revert c c' s. induction rows as [|row rows IH]; intros c c' s Hlb; [done|].
  rewrite !fold_rows_cons.
  destruct (process_event_frame c c' s (method_name_of row) row Hlb) as [Hs Hb].
  rewrite Hs. by apply IH.
Qed.

Lemma process_data_nonempty c data :
  data ≠ [] →
  process_data c data
  = Ok ((fold_rows c new_NostraAlphaState (sorted_df data)).1,
        get_result_df
          (loan_entities (fold_rows c new_NostraAlphaState (sorted_df data)).2)).
Proof.
  intros Hne. unfold process_data. destruct data as [|e data]; [done|].
  by destruct (fold_rows _ _ _).
Qed.

Lemma elem_of_sorted_df event data :
  event ∈ sorted_df data ↔
  event ∈ data ∧ key_name event ∈ events_with_interest_rate.
Proof.
  unfold sorted_df. rewrite sort_values_perm, list_elem_of_filter.
  unfold isin. tauto.
Qed.

(** ** Routing of single records *)

(** C5 (as the code has it): a record that reaches [process_event] with the
    interest-rate-model address as its [from_address] is handed to the
    interest-rate-model fold, whatever its [key_name], [method_name] and
    [block_number]; the ordinary dispatch is not entered, so [last_block]
    keeps its value.  [process_data] passes a record of the batch to
    [process_event] exactly when its [key_name] is a key of [EVENTS_MAPPING]
    or one of [INTEREST_RATES_KEYS]. *)
Theorem interest_rate_model_routing c s m event :
  from_address event = INTEREST_RATE_MODEL_ADDRESS →
  process_event c s m event =
    match process_interest_rate_event c s event with
    | (c1, s1, None) => (c1, s1)
    | (c1, s1, Some ex) => (write_log (LogFailedEvent ex) c1, s1)
    end ∧
  (process_event c s m event).2 = (process_interest_rate_model_event s event).1 ∧
  last_block (process_event c s m event).1 = last_block c ∧
  ∀ data, event ∈ data →
    (event ∈ sorted_df data ↔ key_name event ∈ events_with_interest_rate).
Proof.
  intros Hirm. split_and!.
  - by apply process_event_irm.
  - by apply process_event_irm_ledger.
  - by apply process_event_irm_last_block.
  - intros data Hin. rewrite elem_of_sorted_df. tauto.
Qed.

(** C6 (as the code has it): for an ordinary record whose address and event
    name resolve to no ledger method, the ledger is left as it was and the
    rest of the batch is folded from there.  When the record passes the
    block-number guard, the lookup fails with a [KeyError], which is caught
    and logged, and [last_block] has already taken the record's block number;
    when it does not pass the guard, no lookup is made and nothing is
    logged. *)
Theorem unmapped_pair_skipped c s m event rest :
  from_address event ≠ INTEREST_RATE_MODEL_ADDRESS →
  ADDRESSES_TO_EVENTS !! from_address event
    ≫= (λ event_type, EVENTS_METHODS_MAPPING !! (event_type, key_name event))
    = None →
  (process_event c s m event).2 = s ∧
  match block_guard c event with
  | Some bn =>
      ∃ key, (process_event c s m event).1
             = write_log (LogFailedEvent (KeyError key)) (set_last_block bn c)
  | None => (process_event c s m event).1 = c
  end ∧
  fold_rows c s (event :: rest) = fold_rows (process_event c s m event).1 s rest.
Proof.
  intros Hord Hpair.
  assert ((process_event c s m event).2 = s ∧
          match block_guard c event with
          | Some bn =>
              ∃ key, (process_event c s m event).1
                     = write_log (LogFailedEvent (KeyError key)) (set_last_block bn c)
          | None => (process_event c s m event).1 = c
          end) as [Hs Hc].
  { unfold process_event, process_event_try. rewrite decide_False by done.
    destruct (block_guard c event) as [bn|]; [|done].
    destruct (ADDRESSES_TO_EVENTS !! from_address event) as [event_type|];
      simpl in Hpair; [|by eauto].
    rewrite Hpair. by eauto. }
  split_and!; [done..|].
  rewrite fold_rows_cons, (process_event_method_name c s _ m), Hs. done.
Qed.

(** C10: an ordinary record whose [block_number] is missing, zero or below
    [last_block] leaves the computation object (checkpoint, rate history and
    log) and the ledger exactly as they were, for every ledger
    implementation; a record from the interest-rate-model address with such a
    [block_number] is still folded. *)
Theorem stale_ordinary_event_dropped c s m event :
  (block_number event = None ∨ block_number event = Some 0 ∨
   ∃ bn, block_number event = Some bn ∧ bn < last_block c) →
  (from_address event ≠ INTEREST_RATE_MODEL_ADDRESS →
   process_event c s m event = (c, s)) ∧
  (from_address event = INTEREST_RATE_MODEL_ADDRESS →
   (process_event c s m event).2 = (process_interest_rate_model_event s event).1).
Proof.
  intros Hstale. split.
  - intros Hord. apply process_event_dropped; [done|]. by apply block_guard_None.
  - apply process_event_irm_ledger.
Qed.

(** ** Batches *)

(** C9: [process_data] folds every batch into a new [NostraAlphaState()]
    instance; the snapshot it returns and the checkpoint it leaves are
    determined by the batch and by [last_block] alone: two computation
    objects that agree on [last_block], whatever they processed before,
    produce the same snapshot for the same batch. *)
Theorem process_data_uses_fresh_ledger c c' data :
  last_block c = last_block c' →
  match process_data c data, process_data c' data with
  | Ok (c1, df), Ok (c1', df') =>
      df = df' ∧ last_block c1 = last_block c1' ∧
      df = get_result_df
             (loan_entities (fold_rows c new_NostraAlphaState (sorted_df data)).2)
  | Raise ex, Raise ex' => data = [] ∧ ex = ex'
  | _, _ => False
  end.
Proof.
  intros Hlb. destruct (decide (data = [])) as [->|Hne]; [done|].
  rewrite !process_data_nonempty by done.
  destruct (fold_rows_frame c c' new_NostraAlphaState (sorted_df data) Hlb)
    as [Hs Hb].
  by rewrite Hs, Hb.
Qed.

(** ** One iteration of the loop *)

Lemma iteration_empty st interest_rate_data :
  get_data INTEREST_RATE_MODEL_ADDRESS (last_block (self st)) = Ok interest_rate_data →
  get_addresses_data PROTOCOL_ADDRESSES (last_block (self st)) = Ok [] →
  iteration st = (empty_page st, None).
Proof. intros Hirm Hord. unfold iteration. by rewrite Hirm, Hord. Qed.

Lemma iteration_nonempty st interest_rate_data data :
  get_data INTEREST_RATE_MODEL_ADDRESS (last_block (self st)) = Ok interest_rate_data →
  get_addresses_data PROTOCOL_ADDRESSES (last_block (self st)) = Ok data →
  data ≠ [] →
  iteration st =
    persist_and_advance st
      (fold_rows (self st) new_NostraAlphaState
         (sorted_df (interest_rate_data ++ data))).1
      (get_result_df (loan_entities
         (fold_rows (self st) new_NostraAlphaState
            (sorted_df (interest_rate_data ++ data))).2)).
Proof.
  intros Hirm Hord Hne. unfold iteration. rewrite Hirm, Hord.
  destruct data as [|d data]; [done|].
  rewrite process_data_nonempty; [done|].
  by destruct interest_rate_data.
Qed.

Lemma persist_and_advance_ok st c1 df db1 db2 h :
  save_data (storage st) df = Ok db1 →
  save_interest_rate_data db1 (interest_rate_result c1) = Ok (db2, h) →
  persist_and_advance st c1 df =
    ({| self := write_log (LogProcessedUpTo (last_block c1 + PAGINATION_SIZE))
                  (set_last_block (last_block c1 + PAGINATION_SIZE)
                     (set_interest_rate_result h c1));
        storage := db2; retry := 0 |}, None).
Proof. intros Hsave Hrates. unfold persist_and_advance. by rewrite Hsave, Hrates. Qed.

Lemma persist_and_advance_completed st c1 df st1 :
  persist_and_advance st c1 df = (st1, None) →
  last_block (self st1) = last_block c1 + PAGINATION_SIZE ∧ retry st1 = 0 ∧
  ∃ blk : Z, log (self st1) = log c1 ++ [LogProcessedUpTo blk].
Proof.
  unfold persist_and_advance.
  destruct (save_data _ _) as [db1|]; [|done].
  destruct (save_interest_rate_data _ _) as [[db2 h]|]; [|done].
  intros [= <-]. simpl. eauto.
Qed.

Lemma iteration_last_block_le st st1 :
  iteration st = (st1, None) →
  last_block (self st) + PAGINATION_SIZE ≤ last_block (self st1).
Proof.
  unfold iteration.
  destruct (get_data _ _) as [interest_rate_data|]; [|done].
  destruct (get_addresses_data _ _) as [[|d data]|]; [| |done].
  - by intros [= <-].
  - rewrite process_data_nonempty by by destruct interest_rate_data.
    intros (-> & _ & _)%persist_and_advance_completed.
    pose proof (fold_rows_last_block_le (self st) new_NostraAlphaState
                  (sorted_df (interest_rate_data ++ d :: data))). lia.
Qed.

(** C3 (as the code has it): the empty-page path is taken exactly when the
    fetch of ordinary events returns nothing, whatever the fetch of
    interest-rate-model events returned; when the ordinary fetch returns
    events, the concatenation of the two fetches is folded and the result
    handed to the persistence step. *)
Theorem empty_page_iff_no_ordinary_events st interest_rate_data data :
  get_data INTEREST_RATE_MODEL_ADDRESS (last_block (self st)) = Ok interest_rate_data →
  get_addresses_data PROTOCOL_ADDRESSES (last_block (self st)) = Ok data →
  (iteration st = (empty_page st, None) ↔ data = []) ∧
  (data ≠ [] →
   iteration st =
     persist_and_advance st
       (fold_rows (self st) new_NostraAlphaState
          (sorted_df (interest_rate_data ++ data))).1
       (get_result_df (loan_entities
          (fold_rows (self st) new_NostraAlphaState
             (sorted_df (interest_rate_data ++ data))).2))).
Proof.
  intros Hirm Hord. split; [split|].
  - intros Hstep. destruct (decide (data = [])) as [|Hne]; [done|]. exfalso.
    rewrite (iteration_nonempty _ _ _ Hirm Hord Hne) in Hstep.
    apply persist_and_advance_completed in Hstep as (_ & _ & b & Hlog).
    simpl in Hlog. by apply app_inj_tail in Hlog as [_ ?].
  - intros ->. by eapply iteration_empty.
  - by apply iteration_nonempty.
Qed.

Lemma block_guard_last_block c c' event :
  last_block c = last_block c' → block_guard c event = block_guard c' event.
Proof. unfold block_guard. by intros ->. Qed.

Lemma fold_rows_keeps_last_block c s rows :
  (∀ row, row ∈ rows →
     from_address row = INTEREST_RATE_MODEL_ADDRESS ∨ block_guard c row = None) →
  last_block (fold_rows c s rows).1 = last_block c.
Proof.
  revert c s. induction rows as [|row rows IH]; intros c s Hrows; [done|].
  rewrite fold_rows_cons.
  assert (last_block (process_event c s (method_name_of row) row).1
          = last_block c) as Hstep.
  { destruct (Hrows row) as [Hirm|Hguard]; [by left| |].
    - by apply process_event_irm_last_block.
    - destruct (decide (from_address row = INTEREST_RATE_MODEL_ADDRESS)).
      + by apply process_event_irm_last_block.
      + by rewrite process_event_dropped. }
  rewrite IH; [done|].
  intros row' Hin. destruct (Hrows row') as [?|Hguard]; [by right|by left|].
  right. by rewrite (block_guard_last_block _ c).
Qed.

Lemma fold_advance_nonneg st : 0 ≤ fold_advance st.
Proof.
  unfold fold_advance.
  destruct (get_data _ _) as [interest_rate_data|]; [|done].
  destruct (get_addresses_data _ _) as [[|d data]|]; [done| |done].
  pose proof (fold_rows_last_block_le (self st) new_NostraAlphaState
                (sorted_df (interest_rate_data ++ d :: data))). lia.
Qed.

Lemma fold_advance_zero st interest_rate_data data :
  get_data INTEREST_RATE_MODEL_ADDRESS (last_block (self st)) = Ok interest_rate_data →
  get_addresses_data PROTOCOL_ADDRESSES (last_block (self st)) = Ok data →
  (∀ row, row ∈ interest_rate_data ++ data →
     key_name row ∈ events_with_interest_rate →
     from_address row = INTEREST_RATE_MODEL_ADDRESS ∨
     block_guard (self st) row = None) →
  fold_advance st = 0.
Proof.
  intros Hirm Hord Hrows. unfold fold_advance. rewrite Hirm, Hord.
  destruct data as [|d data]; [done|].
  rewrite fold_rows_keeps_last_block; [lia|].
  intros row [Hin Hkey]%elem_of_sorted_df. by apply Hrows.
Qed.

Lemma iteration_last_block st st1 :
  iteration st = (st1, None) →
  last_block (self st1)
  = last_block (self st) + PAGINATION_SIZE + fold_advance st.
Proof.
  unfold iteration, fold_advance.
  destruct (get_data _ _) as [interest_rate_data|]; [|done].
  destruct (get_addresses_data _ _) as [[|d data]|]; [| |done].
  - intros [= <-]. simpl. lia.
  - rewrite process_data_nonempty by by destruct interest_rate_data.
    intros (-> & _ & _)%persist_and_advance_completed. lia.
Qed.

(** C2 (as the code has it): every completed iteration adds the page size
    to the value the fold left in [last_block].  After [n] iterations that
    complete, [last_block] is its initial value plus [n] times the page size
    plus the amounts by which the folds of these iterations moved it.  Such
    an amount is never negative, so [last_block] is at least the initial
    value plus [n] times the page size; it is zero for a page without
    ordinary events and for a page none of whose listed ordinary records
    passes the block-number guard. *)
Theorem checkpoint_progress n st st' :
  iterations n st = Some st' →
  last_block (self st')
  = last_block (self st) + Z.of_nat n * PAGINATION_SIZE + fold_advances n st ∧
  0 ≤ fold_advances n st ∧
  last_block (self st) + Z.of_nat n * PAGINATION_SIZE ≤ last_block (self st') ∧
  (∀ st0, 0 ≤ fold_advance st0) ∧
  (∀ st0 interest_rate_data,
     get_data INTEREST_RATE_MODEL_ADDRESS (last_block (self st0))
       = Ok interest_rate_data →
     get_addresses_data PROTOCOL_ADDRESSES (last_block (self st0)) = Ok [] →
     fold_advance st0 = 0) ∧
  (∀ st0 interest_rate_data data,
     get_data INTEREST_RATE_MODEL_ADDRESS (last_block (self st0))
       = Ok interest_rate_data →
     get_addresses_data PROTOCOL_ADDRESSES (last_block (self st0)) = Ok data →
     (∀ row, row ∈ interest_rate_data ++ data →
        key_name row ∈ events_with_interest_rate →
        from_address row = INTEREST_RATE_MODEL_ADDRESS ∨
        block_guard (self st0) row = None) →
     fold_advance st0 = 0).
Proof.
  intros Hrun.
  assert (last_block (self st')
          = last_block (self st) + Z.of_nat n * PAGINATION_SIZE
            + fold_advances n st ∧ 0 ≤ fold_advances n st) as [Heq Hnonneg].
  { revert st Hrun. induction n as [|n IH]; intros st; simpl.
    - intros [= ->]. lia.
    - destruct (iteration st) as [st1 [ex|]] eqn:Hstep; [done|].
      intros [Hrest Hpos]%IH. apply iteration_last_block in Hstep.
      pose proof (fold_advance_nonneg st). lia. }
  split_and!; [done|done|lia|apply fold_advance_nonneg| |].
  - intros st0 interest_rate_data Hirm Hord.
    unfold fold_advance. by rewrite Hirm, Hord.
  - apply fold_advance_zero.
Qed.

(** C4 (as the code has it): when [save_data] raises for a batch, the
    exception leaves [run] (the loop stops there), the page size is not
    added to [last_block] and the persistence layer is as it was.
    [last_block] holds the value the fold left in it: never below the value
    before the batch, and equal to it when no ordinary record of the batch
    passed the block-number guard. *)
Theorem persistence_failure_stops_loop
    max_retries final_block fuel st interest_rate_data data ex :
  get_data INTEREST_RATE_MODEL_ADDRESS (last_block (self st)) = Ok interest_rate_data →
  get_addresses_data PROTOCOL_ADDRESSES (last_block (self st)) = Ok data →
  data ≠ [] →
  let folded :=
    fold_rows (self st) new_NostraAlphaState (sorted_df (interest_rate_data ++ data)) in
  save_data (storage st) (get_result_df (loan_entities folded.2)) = Raise ex →
  retry st < max_retries →
  last_block (self st) < final_block →
  let crashed := {| self := folded.1; storage := storage st; retry := retry st |} in
  iteration st = (crashed, Some ex) ∧
  run_loop max_retries final_block (S fuel) st = Some (CRASHED ex, crashed) ∧
  last_block (self st) ≤ last_block folded.1 ∧
  ((∀ row, row ∈ interest_rate_data ++ data →
      from_address row = INTEREST_RATE_MODEL_ADDRESS ∨
      block_guard (self st) row = None) →
   last_block folded.1 = last_block (self st)).
Proof.
  intros Hirm Hord Hne folded Hsave Hretry Hlast crashed.
  assert (iteration st = (crashed, Some ex)) as Hstep.
  { rewrite (iteration_nonempty _ _ _ Hirm Hord Hne).
    unfold persist_and_advance. fold folded. by rewrite Hsave. }
  split_and!.
  - done.
  - simpl. rewrite decide_True, decide_False, Hstep by lia. done.
  - apply fold_rows_last_block_le.
  - intros Hrows. apply fold_rows_keeps_last_block.
    intros row [Hin _]%elem_of_sorted_df. by apply Hrows.
Qed.

(** What a record whose fold raises has done by then. *)
Lemma process_event_try_raises c s m event c2 s2 ex :
  process_event_try c s m event = (c2, s2, Some ex) →
  (from_address event = INTEREST_RATE_MODEL_ADDRESS ∧
   c2 = c ∧ s2 = (process_interest_rate_model_event s event).1) ∨
  (from_address event ≠ INTEREST_RATE_MODEL_ADDRESS ∧
   ∃ bn, block_guard c event = Some bn ∧ c2 = set_last_block bn c ∧
     (s2 = s ∨
      ∃ name method,
        state_getattr name = Some method ∧ method s event = (s2, Some ex))).
Proof.
  unfold process_event_try. case_decide as Haddr.
  - intros Hraise. left. split; [done|].
    unfold process_interest_rate_event in Hraise.
    destruct (process_interest_rate_model_event s event) as [s1 [ex1|]].
    + by injection Hraise as <- <- _.
    + destruct (add_interest_rate_data _ _ _); [done|].
      by injection Hraise as <- <- _.
  - intros Hraise. right. split; [done|].
    destruct (block_guard c event) as [bn|]; [|done]. exists bn.
    destruct (ADDRESSES_TO_EVENTS !! _) as [event_type|];
      [|injection Hraise as <- <- _; by auto].
    destruct (EVENTS_METHODS_MAPPING !! _) as [name|];
      [|injection Hraise as <- <- _; by auto].
    destruct (state_getattr name) as [method|] eqn:Hattr;
      [|injection Hraise as <- <- _; by auto].
    destruct (method s event) as [s1 [ex1|]] eqn:Hcall; [|done].
    injection Hraise as <- <- <-. split_and!; [done..|].
    right. by exists name, method.
Qed.

(** C7 (as the code has it): when the fold of one record of a batch raises,
    the exception is caught and logged, the records after it in the fold
    order are folded, and [process_data] returns its snapshot; when the two
    save operations then succeed, the iteration completes and [last_block]
    is advanced by the page size.  The record is not undone: the fold goes
    on from the objects as the record left them.  For a record from the
    interest-rate-model address that is [self] unchanged and the ledger as
    [process_interest_rate_model_event] left it; for an ordinary record
    [last_block] has taken the record's block number, and the ledger is
    unchanged when a lookup failed and as the ledger method left it when the
    method raised. *)
Theorem record_exception_contained
    st interest_rate_data data rows1 event rows2 c2 s2 ex db1 db2 h :
  get_data INTEREST_RATE_MODEL_ADDRESS (last_block (self st)) = Ok interest_rate_data →
  get_addresses_data PROTOCOL_ADDRESSES (last_block (self st)) = Ok data →
  data ≠ [] →
  sorted_df (interest_rate_data ++ data) = rows1 ++ event :: rows2 →
  let before := fold_rows (self st) new_NostraAlphaState rows1 in
  process_event_try before.1 before.2 (method_name_of event) event
    = (c2, s2, Some ex) →
  let after := fold_rows (write_log (LogFailedEvent ex) c2) s2 rows2 in
  let processed_data := get_result_df (loan_entities after.2) in
  save_data (storage st) processed_data = Ok db1 →
  save_interest_rate_data db1 (interest_rate_result after.1) = Ok (db2, h) →
  process_data (self st) (interest_rate_data ++ data) = Ok (after.1, processed_data) ∧
  LogFailedEvent ex ∈ log after.1 ∧
  (iteration st).2 = None ∧
  retry (iteration st).1 = 0 ∧
  last_block (self (iteration st).1) = last_block after.1 + PAGINATION_SIZE ∧
  last_block (self st) + PAGINATION_SIZE ≤ last_block (self (iteration st).1) ∧
  ((from_address event = INTEREST_RATE_MODEL_ADDRESS ∧
    c2 = before.1 ∧
    s2 = (process_interest_rate_model_event before.2 event).1) ∨
   (from_address event ≠ INTEREST_RATE_MODEL_ADDRESS ∧
    ∃ bn, block_guard before.1 event = Some bn ∧
      c2 = set_last_block bn before.1 ∧
      (s2 = before.2 ∨
       ∃ name method,
         state_getattr name = Some method ∧
         method before.2 event = (s2, Some ex)))).
Proof.
  intros Hirm Hord Hne Hrows before Htry after processed_data Hsave Hrates.
  assert (fold_rows (self st) new_NostraAlphaState
            (sorted_df (interest_rate_data ++ data)) = after) as Hfold.
  { rewrite Hrows, fold_rows_app, fold_rows_cons. fold before.
    unfold process_event. by rewrite Htry. }
  assert (iteration st =
            ({| self := write_log (LogProcessedUpTo (last_block after.1 + PAGINATION_SIZE))
                          (set_last_block (last_block after.1 + PAGINATION_SIZE)
                             (set_interest_rate_result h after.1));
                storage := db2; retry := 0 |}, None)) as Hstep.
  { rewrite (iteration_nonempty _ _ _ Hirm Hord Hne), Hfold.
    by apply persist_and_advance_ok with db1. }
  split_and!.
  - rewrite process_data_nonempty by by destruct interest_rate_data, data.
    by rewrite Hfold.
  - eapply elem_of_prefix; [|apply fold_rows_log]. simpl. set_solver.
  - by rewrite Hstep.
  - by rewrite Hstep.
  - by rewrite Hstep.
  - apply iteration_last_block_le. rewrite Hstep. done.
  - by apply (process_event_try_raises _ _ (method_name_of event) _ _ _ ex).
Qed.

(** ** Runs over pages without ordinary events *)

Lemma empty_page_iter k st :
  last_block (self (Nat.iter k empty_page st))
  = last_block (self st) + Z.of_nat k * PAGINATION_SIZE ∧
  retry (Nat.iter k empty_page st) = retry st + Z.of_nat k ∧
  storage (Nat.iter k empty_page st) = storage st ∧
  interest_rate_result (self (Nat.iter k empty_page st))
  = interest_rate_result (self st).
Proof.
  induction k as [|k (Hb & Hr & Hs & Hh)]; simpl.
  - split_and!; [lia|lia|done|done].
  - rewrite Hb, Hr, Hs, Hh. split_and!; [lia|lia|done|done].
Qed.

Section EmptyFeed.
Hypothesis no_rate_events :
  ∀ from_block : Z, get_data INTEREST_RATE_MODEL_ADDRESS from_block = Ok [].
Hypothesis no_ordinary_events :
  ∀ from_block : Z, get_addresses_data PROTOCOL_ADDRESSES from_block = Ok [].

Lemma run_loop_empty_step max_retries final_block fuel st :
  retry st < max_retries → last_block (self st) < final_block →
  run_loop max_retries final_block (S fuel) st
  = run_loop max_retries final_block fuel (empty_page st).
Proof.
  intros Hretry Hlast. simpl.
  rewrite decide_True, decide_False by lia.
  by rewrite (iteration_empty st []).
Qed.

Lemma run_loop_empty_pages max_retries final_block k fuel st :
  (∀ j, (j < k)%nat →
     retry st + Z.of_nat j < max_retries ∧
     last_block (self st) + Z.of_nat j * PAGINATION_SIZE < final_block) →
  run_loop max_retries final_block (k + fuel) st
  = run_loop max_retries final_block fuel (Nat.iter k empty_page st).
Proof.
  revert st. induction k as [|k IH]; intros st Hbefore; [done|].
  change (S k + fuel)%nat with (S (k + fuel)).
  destruct (Hbefore 0%nat) as [Hretry Hlast]; [lia|].
  rewrite run_loop_empty_step by lia.
  rewrite IH, Nat.iter_succ_r; [done|].
  intros j Hj. destruct (Hbefore (S j)) as [Hr Hb]; [lia|].
  simpl. lia.
Qed.

Lemma run_loop_exhausted max_retries final_block st :
  retry st = 0 → 0 ≤ max_retries →
  (∀ j, 0 ≤ j < max_retries →
     last_block (self st) + j * PAGINATION_SIZE < final_block) →
  ∃ st',
    run_loop max_retries final_block (S (Z.to_nat max_retries)) st
      = Some (RETRY_EXHAUSTED, st') ∧
    run_loop max_retries final_block (Z.to_nat max_retries) st = None ∧
    last_block (self st')
      = last_block (self st) + max_retries * PAGINATION_SIZE ∧
    retry st' = max_retries ∧
    storage st' = storage st ∧
    last (log (self st')) = Some (LogMaxRetries (last_block (self st'))).
Proof.
  intros Hretry Hmax Hbefore.
  remember (Z.to_nat max_retries) as k eqn:Hk.
  assert (Z.of_nat k = max_retries) as Hk' by lia. clear Hk.
  destruct (empty_page_iter k st) as (Hb & Hr & Hs & _).
  assert (∀ j, (j < k)%nat →
            retry st + Z.of_nat j < max_retries ∧
            last_block (self st) + Z.of_nat j * PAGINATION_SIZE < final_block)
    as Hbefore'.
  { intros j Hj. split; [lia|]. apply Hbefore. lia. }
  eexists. split_and!.
  - replace (S k) with (k + 1)%nat by lia.
    rewrite run_loop_empty_pages by done. simpl.
    rewrite decide_False, decide_True by lia. done.
  - replace k with (k + 0)%nat at 1 by lia.
    by rewrite run_loop_empty_pages.
  - simpl. rewrite Hb, Hk'. done.
  - simpl. lia.
  - done.
  - simpl. by rewrite last_snoc.
Qed.

Lemma run_loop_done max_retries final_block k st :
  retry st = 0 → Z.of_nat k < max_retries →
  (∀ j, (j < k)%nat →
     last_block (self st) + Z.of_nat j * PAGINATION_SIZE < final_block) →
  final_block ≤ last_block (self st) + Z.of_nat k * PAGINATION_SIZE →
  ∃ st',
    run_loop max_retries final_block (S k) st = Some (DONE, st') ∧
    run_loop max_retries final_block k st = None ∧
    last_block (self st')
      = last_block (self st) + Z.of_nat k * PAGINATION_SIZE ∧
    retry st' = Z.of_nat k.
Proof.
  intros Hretry Hk Hbefore Hreached.
  destruct (empty_page_iter k st) as (Hb & Hr & _ & _).
  assert (∀ j, (j < k)%nat →
            retry st + Z.of_nat j < max_retries ∧
            last_block (self st) + Z.of_nat j * PAGINATION_SIZE < final_block)
    as Hbefore'.
  { intros j Hj. split; [lia|]. by apply Hbefore. }
  eexists. split_and!.
  - replace (S k) with (k + 1)%nat by lia.
    rewrite run_loop_empty_pages by done. simpl.
    rewrite !decide_True by lia. done.
  - replace k with (k + 0)%nat at 1 by lia.
    by rewrite run_loop_empty_pages.
  - simpl. by rewrite Hb.
  - simpl. lia.
Qed.

(** With the constants of [run] and a page size of at least one block, a feed
    without events ends the run at the last-block test, with fewer than
    [max_retries] retries counted. *)
Lemma run_empty_feed_reaches_last_block c db :
  1 ≤ PAGINATION_SIZE →
  ∃ k st',
    run (S k) c db = Some (DONE, st') ∧
    retry st' = Z.of_nat k ∧ Z.of_nat k < 1000000 ∧
    last_block (self st') = 10854 + Z.of_nat k * PAGINATION_SIZE.
Proof.
  intros Hpage.
  set (q := (637098 + PAGINATION_SIZE - 1) / PAGINATION_SIZE).
  pose proof (Z.div_mod (637098 + PAGINATION_SIZE - 1) PAGINATION_SIZE) as Hdiv.
  pose proof (Z.mod_pos_bound (637098 + PAGINATION_SIZE - 1) PAGINATION_SIZE) as Hmod.
  fold q in Hdiv.
  assert (0 ≤ q) as Hq0 by (apply Z.div_pos; lia).
  assert (q ≤ 637098) as Hq1 by nia.
  destruct (run_loop_done 1000000 647952 (Z.to_nat q) (run_init c db))
    as (st' & Hrun & _ & Hb & Hr); [done|lia| |simpl; nia|].
  { intros j Hj. simpl. nia. }
  exists (Z.to_nat q), st'. split_and!; [done|done|lia|done].
Qed.

End EmptyFeed.

(** C8 (as the code has it): over a feed that never returns events the loop
    counts one retry per page and stops with the retry bound exhausted after
    exactly [max_retries] iterations, at [initial + max_retries * page size],
    provided the last-block bound is not reached by one of these pages; when
    it is reached first, after [k] pages, the loop stops there at the
    last-block test instead.  An iteration that finds and processes data sets
    the retry counter to zero. *)
Theorem retry_bound_counts_consecutive_empty_pages :
  (∀ max_retries final_block st,
     (∀ b : Z, get_data INTEREST_RATE_MODEL_ADDRESS b = Ok []) →
     (∀ b : Z, get_addresses_data PROTOCOL_ADDRESSES b = Ok []) →
     retry st = 0 → 0 ≤ max_retries →
     (∀ j, 0 ≤ j < max_retries →
        last_block (self st) + j * PAGINATION_SIZE < final_block) →
     ∃ st',
       run_loop max_retries final_block (S (Z.to_nat max_retries)) st
         = Some (RETRY_EXHAUSTED, st') ∧
       run_loop max_retries final_block (Z.to_nat max_retries) st = None ∧
       last_block (self st')
         = last_block (self st) + max_retries * PAGINATION_SIZE ∧
       retry st' = max_retries ∧
       last (log (self st')) = Some (LogMaxRetries (last_block (self st')))) ∧
  (∀ max_retries final_block (k : nat) st,
     (∀ b : Z, get_data INTEREST_RATE_MODEL_ADDRESS b = Ok []) →
     (∀ b : Z, get_addresses_data PROTOCOL_ADDRESSES b = Ok []) →
     retry st = 0 → Z.of_nat k < max_retries →
     (∀ j, (j < k)%nat →
        last_block (self st) + Z.of_nat j * PAGINATION_SIZE < final_block) →
     final_block ≤ last_block (self st) + Z.of_nat k * PAGINATION_SIZE →
     ∃ st',
       run_loop max_retries final_block (S k) st = Some (DONE, st') ∧
       run_loop max_retries final_block k st = None ∧
       last_block (self st')
         = last_block (self st) + Z.of_nat k * PAGINATION_SIZE ∧
       retry st' = Z.of_nat k) ∧
  (∀ st st1 interest_rate_data data,
     get_data INTEREST_RATE_MODEL_ADDRESS (last_block (self st))
       = Ok interest_rate_data →
     get_addresses_data PROTOCOL_ADDRESSES (last_block (self st)) = Ok data →
     data ≠ [] →
     iteration st = (st1, None) →
     retry st1 = 0).
Proof.
  split_and!.
  - intros max_retries final_block st Hirm Hord Hretry Hmax Hbefore.
    destruct (run_loop_exhausted Hirm Hord max_retries final_block st)
      as (st' & ? & ? & ? & ? & ? & ?); [done..|].
    exists st'. by split_and!.
  - intros max_retries final_block k st Hirm Hord. by apply run_loop_done.
  - intros st st1 interest_rate_data data Hirm Hord Hne.
    rewrite (iteration_nonempty _ _ _ Hirm Hord Hne).
    by intros (_ & ? & _)%persist_and_advance_completed.
Qed.

End Properties.

(** * Concrete runs *)

Section ConcreteRuns.
Import Scenario.

(** C1, counterexample: the rate update at block 100 and the mint at block 99
    arrive in one batch, rate update first; the mint is folded first. *)
Lemma rate_update_at_100_folded_after_mint_at_99 :
  sorted_df (E:=quiet) [rate_update_100; mint_99] = [mint_99; rate_update_100] ∧
  process_data (E:=quiet) (fresh quiet [] 0) [rate_update_100; mint_99]
  = Ok (@mkComputation quiet 99 [Some 100] [],
        [("mint"%string, Some 99); ("interest_rate_model"%string, Some 100)]) ∧
  ¬ (∀ (i j : nat) (a b : Event),
       sorted_df (E:=quiet) [rate_update_100; mint_99] !! i = Some a →
       sorted_df (E:=quiet) [rate_update_100; mint_99] !! j = Some b →
       from_address a = (@INTEREST_RATE_MODEL_ADDRESS quiet) →
       from_address b ≠ (@INTEREST_RATE_MODEL_ADDRESS quiet) →
       (i < j)%nat).
Proof.
  split_and!; [by vm_compute..|].
  intros Hfirst.
  specialize (Hfirst 1%nat 0%nat rate_update_100 mint_99).
  assert (1 < 0)%nat; [|lia].
  apply Hfirst; by vm_compute.
Qed.

Lemma fold_order_is_block_id_order_witness :
  sorted_df (E:=quiet) [rate_update_100; mint_99] !! 0%nat = Some mint_99 ∧
  sorted_df (E:=quiet) [rate_update_100; mint_99] !! 1%nat = Some rate_update_100 ∧
  ¬ row_le rate_update_100 mint_99 ∧
  (0 < 1)%nat.
Proof.
  assert (¬ row_le rate_update_100 mint_99) as Hlt
    by (unfold row_le; simpl; lia).
  split_and!; [reflexivity|reflexivity|exact Hlt|].
  destruct (fold_order_is_block_id_order (E:=quiet) [rate_update_100; mint_99])
    as (_ & _ & Horder).
  apply (Horder 0%nat 1%nat mint_99 rate_update_100);
    [reflexivity|reflexivity|exact Hlt].
Defined.

(** C2, counterexample: the first page of a run holds a mint at block 10900;
    after this one iteration [last_block] is 10900 plus the page size, not
    10854 plus the page size. *)
Lemma checkpoint_overshoots_page_size :
  ∃ st',
    iterations (E:=first_page_mint) 1 (start first_page_mint [] []) = Some st' ∧
    last_block (self (start first_page_mint [] [])) = 10854 ∧
    last_block (self st') = 11900 ∧
    last_block (self st')
    ≠ last_block (self (start first_page_mint [] []))
      + 1 * (@PAGINATION_SIZE first_page_mint).
Proof. eexists. split_and!; [reflexivity|reflexivity|reflexivity|by vm_compute]. Qed.

Lemma checkpoint_progress_witness :
  ∃ st',
    iterations (E:=first_page_mint) 1 (start first_page_mint [] []) = Some st' ∧
    fold_advances (E:=first_page_mint) 1 (start first_page_mint [] []) = 46 ∧
    last_block (self st')
    = last_block (self (start first_page_mint [] []))
      + Z.of_nat 1 * @PAGINATION_SIZE first_page_mint
      + fold_advances (E:=first_page_mint) 1 (start first_page_mint [] []).
Proof.
  eexists. split_and!; [reflexivity|reflexivity|].
  apply (checkpoint_progress (E:=first_page_mint) 1 (start first_page_mint [] [])).
  reflexivity.
Defined.

(** C3, counterexample: the page holds a rate update and no ordinary event;
    the combined batch is not empty, yet the iteration takes the empty-page
    path and the rate update is never folded. *)
Lemma rate_events_alone_take_empty_page_path :
  @get_data rates_only (@INTEREST_RATE_MODEL_ADDRESS rates_only)
    (last_block (self (start rates_only [] []))) = Ok [rate_update_10860] ∧
  @get_addresses_data rates_only (PROTOCOL_ADDRESSES (E:=rates_only))
    (last_block (self (start rates_only [] []))) = Ok [] ∧
  [rate_update_10860] ++ [] ≠ ([] : list Event) ∧
  iteration (E:=rates_only) (start rates_only [] [])
  = (@mkLoopState rates_only
       (@mkComputation rates_only 11854 []
          [LogDefaultLastBlock 10854; LogNoData 10854]) [] 1, None).
Proof. split_and!; by vm_compute. Qed.

Lemma empty_page_iff_no_ordinary_events_witness :
  iteration (E:=rates_only) (start rates_only [] [])
  = (empty_page (start rates_only [] []), None).
Proof.
  destruct (empty_page_iff_no_ordinary_events (E:=rates_only)
              (start rates_only [] []) [rate_update_10860] [])
    as [[_ Hempty] _]; [reflexivity|reflexivity|].
  by apply Hempty.
Defined.

(** C4, counterexample: the persistence layer is down; the run stops at the
    first page, and [last_block] is 10900, the block of the mint folded from
    that page, not the 10854 it was before the batch. *)
Lemma failed_save_leaves_checkpoint_moved :
  ∃ st',
    run (E:=storage_down) 2 (fresh storage_down [] 0) []
    = Some (CRASHED (RuntimeError "storage unavailable"), st') ∧
    last_block (self (start storage_down [] [])) = 10854 ∧
    last_block (self st') = 10900 ∧
    last_block (self st') ≠ last_block (self (start storage_down [] [])).
Proof. eexists. split_and!; [reflexivity|reflexivity|reflexivity|by vm_compute]. Qed.

Lemma persistence_failure_stops_loop_witness :
  run (E:=storage_down) 1 (fresh storage_down [] 0) []
  = Some (CRASHED (RuntimeError "storage unavailable"),
          @mkLoopState storage_down
            (@mkComputation storage_down 10900 [] [LogDefaultLastBlock 10854])
            [] 0).
Proof.
  destruct (persistence_failure_stops_loop (E:=storage_down) 1000000 647952 0
              (start storage_down [] []) [] [mint_10900]
              (RuntimeError "storage unavailable"))
    as (_ & Hrun & _); [reflexivity|reflexivity|discriminate|reflexivity| | |].
  - vm_compute. reflexivity.
  - vm_compute. reflexivity.
  - exact Hrun.
Defined.

(** C5, counterexample: a record from the interest-rate-model address whose
    [key_name] is neither a key of [EVENTS_MAPPING] nor in
    [INTEREST_RATES_KEYS] is filtered out of the batch and never reaches the
    interest-rate-model fold; the same record named [InterestStateUpdated]
    is folded. *)
Lemma rate_model_record_with_unlisted_name_not_folded :
  from_address rate_update_other_name = @INTEREST_RATE_MODEL_ADDRESS quiet ∧
  sorted_df (E:=quiet) [rate_update_other_name] = [] ∧
  process_data (E:=quiet) (fresh quiet [] 0) [rate_update_other_name]
  = Ok (fresh quiet [] 0, []) ∧
  process_data (E:=quiet) (fresh quiet [] 0) [rate_update_100]
  = Ok (@mkComputation quiet 0 [Some 100] [],
        [("interest_rate_model"%string, Some 100)]).
Proof. split_and!; by vm_compute. Qed.

Lemma interest_rate_model_routing_witness :
  (process_event (E:=quiet) (fresh quiet [] 10) [] EmptyString
     rate_update_no_block).2
  = [("interest_rate_model"%string, None)] ∧
  last_block
    (process_event (E:=quiet) (fresh quiet [] 10) [] EmptyString
       rate_update_no_block).1 = 10.
Proof.
  destruct (interest_rate_model_routing (E:=quiet) (fresh quiet [] 10) []
              EmptyString rate_update_no_block)
    as (_ & Hledger & Hblock & _); [reflexivity|].
  split; [exact Hledger|exact Hblock].
Defined.

(** C6, counterexample: the pair (collateral, Burn) has no entry in
    [EVENTS_METHODS_MAPPING]; a Burn record at block 5, below the checkpoint
    10, is dropped without any log line. *)
Lemma unmapped_pair_below_checkpoint_not_logged :
  @ADDRESSES_TO_EVENTS quiet !! from_address burn_5 = Some "collateral"%string ∧
  @EVENTS_METHODS_MAPPING quiet !! ("collateral"%string, key_name burn_5) = None ∧
  process_event (E:=quiet) (fresh quiet [] 10) [] EmptyString burn_5
  = (fresh quiet [] 10, []) ∧
  log (process_event (E:=quiet) (fresh quiet [] 10) [] EmptyString burn_5).1 = [].
Proof. split_and!; by vm_compute. Qed.

Lemma unmapped_pair_skipped_witness :
  (process_event (E:=quiet) (fresh quiet [] 10) [] EmptyString burn_50).2 = [] ∧
  (∃ key,
     (process_event (E:=quiet) (fresh quiet [] 10) [] EmptyString burn_50).1
     = write_log (LogFailedEvent (KeyError key))
         (set_last_block 50 (fresh quiet [] 10))) ∧
  fold_rows (E:=quiet) (fresh quiet [] 10) [] [burn_50; mint_99]
  = fold_rows (E:=quiet)
      (process_event (E:=quiet) (fresh quiet [] 10) [] EmptyString burn_50).1
      [] [mint_99].
Proof.
  apply (unmapped_pair_skipped (E:=quiet) (fresh quiet [] 10) [] EmptyString
           burn_50 [mint_99]).
  - discriminate.
  - vm_compute. reflexivity.
Defined.

(** C7, counterexample: the only record of the first page raises in its
    ledger method.  Its effect is not skipped: [last_block] has taken the
    record's block number 10870 before the exception, so the record has not
    merely added a log line, and the iteration ends at 11870, not at the
    10854 plus page size of a page on which nothing took effect. *)
Lemma failing_record_moves_checkpoint :
  process_event_try (E:=faulty_only) (self (start faulty_only [] [])) []
    EmptyString faulty_10870
  = (@mkComputation faulty_only 10870 [] [LogDefaultLastBlock 10854], [],
     Some (RuntimeError "malformed payload")) ∧
  (process_event (E:=faulty_only) (self (start faulty_only [] [])) []
     EmptyString faulty_10870).1
  ≠ write_log (LogFailedEvent (RuntimeError "malformed payload"))
      (self (start faulty_only [] [])) ∧
  last_block (self (start faulty_only [] [])) = 10854 ∧
  (iteration (E:=faulty_only) (start faulty_only [] [])).2 = None ∧
  last_block (self (iteration (E:=faulty_only) (start faulty_only [] [])).1)
  = 11870 ∧
  last_block (self (iteration (E:=faulty_only) (start faulty_only [] [])).1)
  ≠ last_block (self (start faulty_only [] []))
    + @PAGINATION_SIZE faulty_only.
Proof. split_and!; by vm_compute. Qed.

(** C7, witness: a page with a rate update, a record whose ledger method
    raises, and a mint. *)
Lemma record_exception_contained_witness :
  process_data (E:=faulty_page) (self (start faulty_page [] []))
    ([rate_update_10860] ++ [faulty_10870; mint_10900])
  = Ok (@mkComputation faulty_page 10900 [Some 10860]
          [LogDefaultLastBlock 10854;
           LogFailedEvent (RuntimeError "malformed payload")],
        [("interest_rate_model"%string, Some 10860);
         ("mint"%string, Some 10900)]) ∧
  (iteration (E:=faulty_page) (start faulty_page [] [])).2 = None ∧
  last_block (self (iteration (E:=faulty_page) (start faulty_page [] [])).1)
  = 10900 + 1000.
Proof.
  destruct (record_exception_contained (E:=faulty_page) (start faulty_page [] [])
              [rate_update_10860] [faulty_10870; mint_10900]
              [rate_update_10860] faulty_10870 [mint_10900]
              (@mkComputation faulty_page 10870 [Some 10860]
                 [LogDefaultLastBlock 10854])
              [("interest_rate_model"%string, Some 10860)]
              (RuntimeError "malformed payload")
              [[("interest_rate_model"%string, Some 10860);
                ("mint"%string, Some 10900)]]
              [[("interest_rate_model"%string, Some 10860);
                ("mint"%string, Some 10900)]]
              [])
    as (Hdata & _ & Hdone & _ & Hblock & _ & _).
  - reflexivity.
  - reflexivity.
  - discriminate.
  - vm_compute. reflexivity.
  - vm_compute. reflexivity.
  - vm_compute. reflexivity.
  - vm_compute. reflexivity.
  - split_and!; [exact Hdata|exact Hdone|exact Hblock].
Defined.

(** C8, counterexample: with the constants of [run] and a page size of 1000,
    a feed without events ends the run at the last-block test after 638
    pages, with 638 retries counted and [last_block] at 648854. *)
Lemma empty_feed_run_ends_at_last_block :
  run (E:=quiet) 638 (fresh quiet [] 0) [] = None ∧
  ∃ st',
    run (E:=quiet) 639 (fresh quiet [] 0) [] = Some (DONE, st') ∧
    retry st' = 638 ∧
    last_block (self st') = 648854 ∧
    retry st' ≠ 1000000 ∧
    last_block (self st') ≠ 10854 + 1000000 * @PAGINATION_SIZE quiet.
Proof.
  split; [by vm_compute|].
  eexists (@mkLoopState quiet (@mkComputation quiet 648854 [] _) [] 638).
  split_and!; [|reflexivity|reflexivity|by vm_compute|by vm_compute].
  vm_compute. reflexivity.
Qed.

Lemma retry_bound_counts_consecutive_empty_pages_witness :
  ∃ st',
    run_loop (E:=small_pages) 3 100000 4 (start small_pages [] [])
    = Some (RETRY_EXHAUSTED, st') ∧
    run_loop (E:=small_pages) 3 100000 3 (start small_pages [] []) = None ∧
    last_block (self st') = 10854 + 3 * 10 ∧
    retry st' = 3.
Proof.
  destruct (retry_bound_counts_consecutive_empty_pages (E:=small_pages))
    as (Hexhausted & _ & _).
  destruct (Hexhausted 3 100000 (start small_pages [] []))
    as (st' & Hrun & Hshort & Hblock & Hretry & _).
  - reflexivity.
  - reflexivity.
  - reflexivity.
  - lia.
  - intros j Hj. simpl. lia.
  - exists st'. split_and!; [exact Hrun|exact Hshort|exact Hblock|exact Hretry].
Defined.

(** C9, witness: a computation object that has already folded a batch and a
    new one with the same [last_block] return the same snapshot. *)
Lemma process_data_uses_fresh_ledger_witness :
  match
    process_data (E:=quiet)
      (@mkComputation quiet 99 [Some 100]
         [LogFailedEvent (RuntimeError "malformed payload")])
      [rate_update_10860; mint_10900],
    process_data (E:=quiet) (fresh quiet [] 99) [rate_update_10860; mint_10900]
  with
  | Ok (_, df), Ok (_, df') =>
      df = df' ∧
      df = [("interest_rate_model"%string, Some 10860); ("mint"%string, Some 10900)]
  | _, _ => False
  end.
Proof.
  pose proof (process_data_uses_fresh_ledger (E:=quiet)
                (@mkComputation quiet 99 [Some 100]
                   [LogFailedEvent (RuntimeError "malformed payload")])
                (fresh quiet [] 99) [rate_update_10860; mint_10900] eq_refl)
    as Hsame.
  revert Hsame. vm_compute. intros (Hdf & _ & _). split; [exact Hdf|reflexivity].
Defined.

(** C10, witness: a mint without block number, a Burn below the checkpoint
    and a rate update without block number. *)
Lemma stale_ordinary_event_dropped_witness :
  process_event (E:=quiet) (fresh quiet [] 10) [] EmptyString mint_no_block
  = (fresh quiet [] 10, []) ∧
  process_event (E:=quiet) (fresh quiet [] 10) [] EmptyString burn_5
  = (fresh quiet [] 10, []) ∧
  (process_event (E:=quiet) (fresh quiet [] 10) [] EmptyString
     rate_update_no_block).2
  = [("interest_rate_model"%string, None)].
Proof.
  split_and!.
  - apply (stale_ordinary_event_dropped (E:=quiet) (fresh quiet [] 10) []
             EmptyString mint_no_block); [by left|discriminate].
  - apply (stale_ordinary_event_dropped (E:=quiet) (fresh quiet [] 10) []
             EmptyString burn_5); [|discriminate].
    right; right. exists 5. split; [reflexivity|simpl; lia].
  - apply (stale_ordinary_event_dropped (E:=quiet) (fresh quiet [] 10) []
             EmptyString rate_update_no_block); [by left|reflexivity].
Defined.

End ConcreteRuns.

(** * Further properties of the batch fold *)

Section BatchProperties.
Context {E : Externals}.

Implicit Types (c : Computation) (s : NostraAlphaState) (st : LoopState).
Implicit Types (event row : Event) (rows data : list Event).

(** X1: the order in which the upstream source delivers the records of a
    batch does not matter, as long as two listed records of the batch that
    share [(block_number, id)] are the same record: batches that are
    permutations of each other are folded in the same order and give the
    same snapshot, checkpoint, rate history and log. *)
Theorem process_data_arrival_order c data data' :
  data ≡ₚ data' →
  (∀ a b, a ∈ data → b ∈ data →
     key_name a ∈ events_with_interest_rate →
     key_name b ∈ events_with_interest_rate →
     row_le a b → row_le b a → a = b) →
  sorted_df data = sorted_df data' ∧ process_data c data = process_data c data'.
Proof.
  intros Hperm Hkeys.
  assert (sorted_df data = sorted_df data') as Hsame.
  { apply (StronglySorted_unique_strong row_le).
    - intros a b [Ha Hka]%elem_of_sorted_df [Hb Hkb]%elem_of_sorted_df.
      rewrite <- Hperm in Hb. by apply Hkeys.
    - apply sort_values_sorted.
    - apply sort_values_sorted.
    - unfold sorted_df. by rewrite !sort_values_perm, Hperm. }
  split; [done|].
  destruct (decide (data = [])) as [->|Hne].
  - by apply Permutation_nil_l in Hperm as <-.
  - assert (data' ≠ []) as Hne'.
    { intros ->. by apply Permutation_nil_r in Hperm. }
    by rewrite !process_data_nonempty, Hsame.
Qed.

(** How one record moves the checkpoint. *)

Lemma process_event_accepted c s m event bn :
  from_address event ≠ INTEREST_RATE_MODEL_ADDRESS →
  block_guard c event = Some bn →
  last_block (process_event c s m event).1 = bn.
Proof.
  intros Hord Hguard. unfold process_event, process_event_try.
  rewrite decide_False, Hguard by done.
  destruct (ADDRESSES_TO_EVENTS !! _) as [event_type|]; [|done].
  destruct (EVENTS_METHODS_MAPPING !! _) as [name|]; [|done].
  destruct (state_getattr _) as [method|]; [|done].
  by destruct (method s event) as [s1 [ex|]].
Qed.

Lemma process_event_last_block_cases c s m event :
  last_block (process_event c s m event).1 = last_block c ∨
  (from_address event ≠ INTEREST_RATE_MODEL_ADDRESS ∧
   block_guard c event = Some (last_block (process_event c s m event).1)).
Proof.
  destruct (decide (from_address event = INTEREST_RATE_MODEL_ADDRESS)) as [Hirm|Hord].
  - left. by apply process_event_irm_last_block.
  - destruct (block_guard c event) as [bn|] eqn:Hguard.
    + right. split; [done|].
      by rewrite (process_event_accepted c s m event bn).
    + left. by rewrite process_event_dropped.
Qed.

Lemma fold_rows_last_block_cases c s rows :
  last_block (fold_rows c s rows).1 = last_block c ∨
  ∃ row, row ∈ rows ∧
    from_address row ≠ INTEREST_RATE_MODEL_ADDRESS ∧
    block_number row = Some (last_block (fold_rows c s rows).1) ∧
    last_block (fold_rows c s rows).1 ≠ 0 ∧
    last_block c ≤ last_block (fold_rows c s rows).1.
Proof.
  revert c s. induction rows as [|row rows IH]; intros c s; [by left|].
  rewrite fold_rows_cons.
  pose proof (process_event_last_block_le c s (method_name_of row) row) as Hle.
  pose proof (process_event_last_block_cases c s (method_name_of row) row)
    as Hcases.
  destruct (process_event c s (method_name_of row) row) as [c1 s1].
  simpl in *.
  destruct (IH c1 s1) as [Hsame|(r & Hin & Hord & Hbn & Hnz & Hge)].
  - rewrite Hsame. destruct Hcases as [Hkeep|[Hord Hguard]]; [by left|].
    apply block_guard_Some in Hguard as (Hbn & Hnz & Hge).
    right. exists row. split_and!; [by left|done..].
  - right. exists r. split_and!; [by right|done|done|done|lia].
Qed.

Lemma fold_rows_guard_sorted c s rows1 event rows2 :
  StronglySorted row_le (rows1 ++ event :: rows2) →
  block_guard (fold_rows c s rows1).1 event = block_guard c event.
Proof.
  intros Hsorted.
  destruct (fold_rows_last_block_cases c s rows1)
    as [Hsame|(r & Hin & _ & Hbn & Hnz & Hge)].
  - by apply block_guard_last_block.
  - assert (row_le r event) as Hle.
    { eapply (StronglySorted_app_1_elem_of row_le rows1 (event :: rows2));
        [done|done|by left]. }
    unfold row_le in Hle. rewrite Hbn in Hle.
    unfold block_guard.
    destruct (block_number event) as [bn|]; [|done].
    repeat case_decide; try done; exfalso; lia.
Qed.

Lemma fold_rows_reaches_accepted c s rows event bn :
  StronglySorted row_le rows →
  event ∈ rows →
  from_address event ≠ INTEREST_RATE_MODEL_ADDRESS →
  block_guard c event = Some bn →
  bn ≤ last_block (fold_rows c s rows).1.
Proof.
  intros Hsorted (rows1 & rows2 & ->)%list_elem_of_split Hord Hguard.
  rewrite fold_rows_app, fold_rows_cons.
  etrans; [|apply fold_rows_last_block_le].
  rewrite (process_event_accepted _ _ _ event bn); [done|done|].
  by rewrite (fold_rows_guard_sorted c s rows1 event rows2).
Qed.

(** X3: within a batch every record is judged against the checkpoint the
    batch started with.  The rows are folded in ascending block order, so
    the block numbers that earlier rows of the batch have written to
    [last_block] never make the guard reject a later row. *)
Theorem guard_against_batch_start c s data rows1 event rows2 :
  sorted_df data = rows1 ++ event :: rows2 →
  block_guard (fold_rows c s rows1).1 event = block_guard c event.
Proof.
  intros Hrows. apply (fold_rows_guard_sorted c s rows1 event rows2).
  rewrite <- Hrows. apply sort_values_sorted.
Qed.

(** X4: after the fold of a batch, [last_block] is the largest of the
    checkpoint before the batch and the block numbers of the listed
    ordinary records of the batch that pass the guard against that
    checkpoint. *)
Theorem last_block_after_fold c s data :
  (∀ event bn,
     event ∈ data → key_name event ∈ events_with_interest_rate →
     from_address event ≠ INTEREST_RATE_MODEL_ADDRESS →
     block_guard c event = Some bn →
     bn ≤ last_block (fold_rows c s (sorted_df data)).1) ∧
  (last_block (fold_rows c s (sorted_df data)).1 = last_block c ∨
   ∃ event,
     event ∈ data ∧ key_name event ∈ events_with_interest_rate ∧
     from_address event ≠ INTEREST_RATE_MODEL_ADDRESS ∧
     block_guard c event
     = Some (last_block (fold_rows c s (sorted_df data)).1)).
Proof.
  split.
  - intros event bn Hin Hkey Hord Hguard.
    apply fold_rows_reaches_accepted with event;
      [apply sort_values_sorted|by apply elem_of_sorted_df|done|done].
  - destruct (fold_rows_last_block_cases c s (sorted_df data))
      as [Hsame|(r & [Hin Hkey]%elem_of_sorted_df & Hord & Hbn & Hnz & Hge)];
      [by left|right].
    exists r. split_and!; [done..|]. by apply block_guard_Some.
Qed.

End BatchProperties.

(** * Further properties of the loop *)

Section LoopProperties.
Context {E : Externals}.

Implicit Types (c : Computation) (s : NostraAlphaState) (st : LoopState).
Implicit Types (event row : Event) (rows data : list Event).

Lemma process_event_ordinary_rates c s m event :
  from_address event ≠ INTEREST_RATE_MODEL_ADDRESS →
  interest_rate_result (process_event c s m event).1 = interest_rate_result c.
Proof.
  intros Hord. unfold process_event, process_event_try.
  rewrite decide_False by done.
  destruct (block_guard c event) as [bn|]; [|done].
  destruct (ADDRESSES_TO_EVENTS !! _) as [event_type|]; [|done].
  destruct (EVENTS_METHODS_MAPPING !! _) as [name|]; [|done].
  destruct (state_getattr _) as [method|]; [|done].
  by destruct (method s event) as [s1 [ex|]].
Qed.

Lemma fold_rows_ordinary_rates c s rows :
  Forall (λ row, from_address row ≠ INTEREST_RATE_MODEL_ADDRESS) rows →
  interest_rate_result (fold_rows c s rows).1 = interest_rate_result c.
Proof.
  intros Hrows. revert c s.
  induction Hrows as [|row rows Hrow _ IH]; intros c s; [done|].
  rewrite fold_rows_cons, IH. by apply process_event_ordinary_rates.
Qed.

(** X5: the two kinds of record keep to their own part of [self].  A batch
    whose listed records are all ordinary leaves the rate history
    [interest_rate_result] as it was; a batch whose listed records all come
    from the interest-rate-model address leaves [last_block] as it was. *)
Theorem process_data_frames c data :
  data ≠ [] →
  ∃ c1 df,
    process_data c data = Ok (c1, df) ∧
    ((∀ event, event ∈ data → key_name event ∈ events_with_interest_rate →
        from_address event ≠ INTEREST_RATE_MODEL_ADDRESS) →
     interest_rate_result c1 = interest_rate_result c) ∧
    ((∀ event, event ∈ data → key_name event ∈ events_with_interest_rate →
        from_address event = INTEREST_RATE_MODEL_ADDRESS) →
     last_block c1 = last_block c).
Proof.
  intros Hne. rewrite process_data_nonempty by done.
  eexists _, _. split_and!; [done| |].
  - intros Hord. apply fold_rows_ordinary_rates, Forall_forall.
    intros row [Hin Hkey]%elem_of_sorted_df. by apply Hord.
  - intros Hirm. apply fold_rows_keeps_last_block.
    intros row [Hin Hkey]%elem_of_sorted_df. left. by apply Hirm.
Qed.

Lemma process_event_log_cases c s m event :
  log (process_event c s m event).1 = log c ∨
  ∃ ex, log (process_event c s m event).1 = log c ++ [LogFailedEvent ex].
Proof.
  unfold process_event, process_event_try.
  case_decide.
  - unfold process_interest_rate_event.
    destruct (process_interest_rate_model_event s event) as [s1 [ex|]];
      [by eauto|].
    destruct (add_interest_rate_data _ _ _); by eauto.
  - destruct (block_guard c event) as [bn|]; [|by left].
    destruct (ADDRESSES_TO_EVENTS !! _) as [event_type|]; [|by eauto].
    destruct (EVENTS_METHODS_MAPPING !! _) as [name|]; [|by eauto].
    destruct (state_getattr _) as [method|]; [|by eauto].
    destruct (method s event) as [s1 [ex|]]; by eauto.
Qed.

Lemma fold_rows_log_lines c s rows :
  ∃ new,
    log (fold_rows c s rows).1 = log c ++ new ∧
    Forall (λ r, ∃ ex, r = LogFailedEvent ex) new ∧
    (length new ≤ length rows)%nat.
Proof.
  revert c s. induction rows as [|row rows IH]; intros c s.
  - exists []. by rewrite app_nil_r.
  - rewrite fold_rows_cons.
    destruct (IH (process_event c s (method_name_of row) row).1
                 (process_event c s (method_name_of row) row).2)
      as (new & Hlog & Hnew & Hlen).
    destruct (process_event_log_cases c s (method_name_of row) row)
      as [Hsame|[ex Hone]].
    + exists new. rewrite Hlog, Hsame. split_and!; [done|done|simpl; lia].
    + exists (LogFailedEvent ex :: new). rewrite Hlog, Hone, <- app_assoc.
      split_and!; [done| |simpl; lia].
      constructor; [by eauto|done].
Qed.

(** X6: [process_data] keeps every log line it found and writes nothing but
    failure lines, at most one for each listed record of the batch. *)
Theorem process_data_log_lines c data :
  data ≠ [] →
  ∃ c1 df new,
    process_data c data = Ok (c1, df) ∧
    log c1 = log c ++ new ∧
    Forall (λ r, ∃ ex, r = LogFailedEvent ex) new ∧
    (length new ≤ length (filter (isin events_with_interest_rate) data))%nat.
Proof.
  intros Hne. rewrite process_data_nonempty by done.
  destruct (fold_rows_log_lines c new_NostraAlphaState (sorted_df data))
    as (new & Hlog & Hnew & Hlen).
  eexists _, _, new. split_and!; [done..|].
  unfold sorted_df in Hlen. by rewrite sort_values_perm in Hlen.
Qed.

(** X7: the checkpoint step of one completed iteration over a page with
    ordinary events.  When no listed ordinary record of the page passes the
    guard, [last_block] grows by exactly the page size; a listed ordinary
    record that passes the guard pushes it to at least its block number plus
    the page size. *)
Theorem iteration_checkpoint st st1 interest_rate_data data :
  get_data INTEREST_RATE_MODEL_ADDRESS (last_block (self st)) = Ok interest_rate_data →
  get_addresses_data PROTOCOL_ADDRESSES (last_block (self st)) = Ok data →
  data ≠ [] →
  iteration st = (st1, None) →
  ((∀ row, row ∈ interest_rate_data ++ data →
      key_name row ∈ events_with_interest_rate →
      from_address row = INTEREST_RATE_MODEL_ADDRESS ∨
      block_guard (self st) row = None) →
   last_block (self st1) = last_block (self st) + PAGINATION_SIZE) ∧
  (∀ event bn,
     event ∈ interest_rate_data ++ data →
     key_name event ∈ events_with_interest_rate →
     from_address event ≠ INTEREST_RATE_MODEL_ADDRESS →
     block_guard (self st) event = Some bn →
     bn + PAGINATION_SIZE ≤ last_block (self st1)).
Proof.
  intros Hirm Hord Hne.
  rewrite (iteration_nonempty _ _ _ Hirm Hord Hne).
  intros (Hblock & _ & _)%persist_and_advance_completed. split.
  - intros Hrows. rewrite Hblock. f_equal.
    apply fold_rows_keeps_last_block.
    intros row [Hin Hkey]%elem_of_sorted_df. by apply Hrows.
  - intros event bn Hin Hkey Hordinary Hguard. rewrite Hblock.
    assert (bn ≤ last_block
                   (fold_rows (self st) new_NostraAlphaState
                      (sorted_df (interest_rate_data ++ data))).1) as Hmax.
    { apply fold_rows_reaches_accepted with event;
        [apply sort_values_sorted|by apply elem_of_sorted_df|done|done]. }
    lia.
Qed.

(** X8: when [save_data] succeeds and [save_interest_rate_data] raises, the
    exception leaves [run]: the loop stops with the snapshot of the page
    already stored, the page size not added to [last_block] and the retry
    counter not reset. *)
Theorem rate_history_failure_after_snapshot
    max_retries final_block fuel st interest_rate_data data db1 ex :
  get_data INTEREST_RATE_MODEL_ADDRESS (last_block (self st)) = Ok interest_rate_data →
  get_addresses_data PROTOCOL_ADDRESSES (last_block (self st)) = Ok data →
  data ≠ [] →
  let folded :=
    fold_rows (self st) new_NostraAlphaState (sorted_df (interest_rate_data ++ data)) in
  save_data (storage st) (get_result_df (loan_entities folded.2)) = Ok db1 →
  save_interest_rate_data db1 (interest_rate_result folded.1) = Raise ex →
  retry st < max_retries →
  last_block (self st) < final_block →
  run_loop max_retries final_block (S fuel) st
  = Some (CRASHED ex, {| self := folded.1; storage := db1; retry := retry st |}).
Proof.
  intros Hirm Hord Hne folded Hsave Hrates Hretry Hlast.
  simpl. rewrite decide_True, decide_False by lia.
  rewrite (iteration_nonempty _ _ _ Hirm Hord Hne).
  unfold persist_and_advance. fold folded. by rewrite Hsave, Hrates.
Qed.

Lemma iteration_retry st st1 :
  iteration st = (st1, None) → retry st1 = 0 ∨ retry st1 = retry st + 1.
Proof.
  unfold iteration.
  destruct (get_data _ _) as [interest_rate_data|]; [|done].
  destruct (get_addresses_data _ _) as [[|d data]|]; [| |done].
  - intros [= <-]. by right.
  - rewrite process_data_nonempty by by destruct interest_rate_data.
    intros (_ & ? & _)%persist_and_advance_completed. by left.
Qed.

Lemma run_loop_terminal max_retries final_block fuel st t st' :
  0 ≤ retry st ≤ max_retries →
  run_loop max_retries final_block fuel st = Some (t, st') →
  match t with
  | DONE => final_block ≤ last_block (self st') ∧ retry st' < max_retries
  | RETRY_EXHAUSTED =>
      retry st' = max_retries ∧
      last (log (self st')) = Some (LogMaxRetries (last_block (self st')))
  | CRASHED _ => True
  end.
Proof.
  revert st. induction fuel as [|fuel IH]; intros st Hretry; [done|]. simpl.
  case_decide as Hlt.
  - case_decide as Hlast.
    + intros [= <- <-]. done.
    + destruct (iteration st) as [st1 [ex1|]] eqn:Hstep.
      * intros [= <- <-]. done.
      * apply IH. apply iteration_retry in Hstep as [->| ->]; lia.
  - case_decide as Heq; [|lia].
    intros [= <- <-]. simpl. split; [done|]. by rewrite last_snoc.
Qed.

Lemma run_loop_terminates max_retries final_block fuel st :
  1 ≤ PAGINATION_SIZE →
  final_block - last_block (self st) ≤ Z.of_nat fuel * PAGINATION_SIZE →
  is_Some (run_loop max_retries final_block (S fuel) st).
Proof.
  intros Hpage. revert st. induction fuel as [|fuel IH]; intros st Hdist.
  - simpl. repeat case_decide; try done. lia.
  - change (run_loop max_retries final_block (S (S fuel)) st)
      with (if decide (retry st < max_retries) then
              if decide (final_block ≤ last_block (self st)) then
                Some (DONE,
                      {| self := write_log (LogReachedLastBlock (last_block (self st))) (self st);
                         storage := storage st; retry := retry st |})
              else
                match iteration st with
                | (st1, None) => run_loop max_retries final_block (S fuel) st1
                | (st1, Some ex) => Some (CRASHED ex, st1)
                end
            else if decide (retry st = max_retries) then
              Some (RETRY_EXHAUSTED,
                    {| self := write_log (LogMaxRetries (last_block (self st))) (self st);
                       storage := storage st; retry := retry st |})
            else Some (RETRY_EXHAUSTED, st)).
    repeat case_decide; try done.
    destruct (iteration st) as [st1 [ex1|]] eqn:Hstep; [done|].
    apply IH. apply iteration_last_block_le in Hstep. lia.
Qed.

(** X10: with a page size of at least one block, [run] terminates whatever
    the upstream source and the persistence layer do: every iteration moves
    [last_block] forward by at least the page size, so at most 637098
    iterations fit below the last block 647952.  It ends at the last-block
    test with [last_block] at or above 647952, or with exactly [max_retries]
    retries counted and the corresponding log line written last, or with an
    exception. *)
Theorem run_terminates c db :
  1 ≤ PAGINATION_SIZE →
  ∃ t st',
    run (S (Z.to_nat 637098)) c db = Some (t, st') ∧
    match t with
    | DONE => 647952 ≤ last_block (self st') ∧ retry st' < 1000000
    | RETRY_EXHAUSTED =>
        retry st' = 1000000 ∧
        last (log (self st')) = Some (LogMaxRetries (last_block (self st')))
    | CRASHED _ => True
    end.
Proof.
  intros Hpage. unfold run.
  remember (Z.to_nat 637098) as fuel eqn:Hfuel.
  assert (Z.of_nat fuel = 637098) as Hfuel' by lia. clear Hfuel.
  destruct (run_loop_terminates 1000000 647952 fuel (run_init c db) Hpage)
    as [[t st'] Hrun]; [simpl; nia|].
  exists t, st'. split; [done|].
  eapply run_loop_terminal; [|exact Hrun]. simpl. lia.
Qed.

End LoopProperties.

(** * Further concrete runs *)

Section FurtherConcreteRuns.
Import Scenario.

(** X1, witness: the example batch in both arrival orders. *)
Lemma process_data_arrival_order_witness :
  sorted_df (E:=quiet) [rate_update_100; mint_99]
  = sorted_df (E:=quiet) [mint_99; rate_update_100] ∧
  process_data (E:=quiet) (fresh quiet [] 0) [rate_update_100; mint_99]
  = process_data (E:=quiet) (fresh quiet [] 0) [mint_99; rate_update_100].
Proof.
  apply (process_data_arrival_order (E:=quiet)).
  - apply Permutation_swap.
  - intros a b Ha Hb _ _ Hab Hba.
    apply elem_of_cons in Ha as [->|Ha%list_elem_of_singleton];
      apply elem_of_cons in Hb as [->|Hb%list_elem_of_singleton];
      subst; try reflexivity; exfalso;
      unfold row_le in Hab, Hba; simpl in Hab, Hba; lia.
Defined.

(** X3, witness: the checkpoint is 50 before the batch and 99 when the mint
    at block 10900 is reached. *)
Lemma guard_against_batch_start_witness :
  block_guard (E:=quiet)
    (fold_rows (E:=quiet) (fresh quiet [] 50) [] [mint_99; rate_update_100]).1
    mint_10900
  = block_guard (E:=quiet) (fresh quiet [] 50) mint_10900.
Proof.
  apply (guard_against_batch_start (E:=quiet) (fresh quiet [] 50) []
           [mint_10900; rate_update_100; mint_99]
           [mint_99; rate_update_100] mint_10900 []).
  vm_compute. reflexivity.
Defined.

(** X4, witness: after the example batch the checkpoint is at least 99. *)
Lemma last_block_after_fold_witness :
  99 ≤ last_block
         (fold_rows (E:=quiet) (fresh quiet [] 50) []
            (sorted_df (E:=quiet) [rate_update_100; mint_99])).1.
Proof.
  destruct (last_block_after_fold (E:=quiet) (fresh quiet [] 50) []
              [rate_update_100; mint_99]) as [Hmax _].
  apply (Hmax mint_99 99).
  - right. left.
  - apply (bool_decide_unpack _). vm_compute. exact I.
  - discriminate.
  - vm_compute. reflexivity.
Defined.

(** X5, witness: a batch with one mint keeps the rate history. *)
Lemma process_data_frames_witness :
  ∃ c1 df,
    process_data (E:=quiet) (fresh quiet [Some 7] 0) [mint_99] = Ok (c1, df) ∧
    interest_rate_result c1 = [Some 7].
Proof.
  destruct (process_data_frames (E:=quiet) (fresh quiet [Some 7] 0) [mint_99])
    as (c1 & df & Hdata & Hrates & _); [discriminate|].
  exists c1, df. split; [exact Hdata|].
  apply Hrates. intros event ->%list_elem_of_singleton _. discriminate.
Defined.

(** X6, witness: a batch with a record whose ledger method raises. *)
Lemma process_data_log_lines_witness :
  ∃ c1 df new,
    process_data (E:=quiet) (fresh quiet [] 0) [faulty_10870; mint_10900]
    = Ok (c1, df) ∧
    log c1 = [] ++ new ∧
    Forall (λ r, ∃ ex, r = LogFailedEvent ex) new ∧
    (length new
     ≤ length (filter (isin (events_with_interest_rate (E:=quiet)))
                 [faulty_10870; mint_10900]))%nat.
Proof.
  apply (process_data_log_lines (E:=quiet) (fresh quiet [] 0)
           [faulty_10870; mint_10900]).
  discriminate.
Defined.

(** X7, witness: the first page of a run with a mint at block 10900. *)
Lemma iteration_checkpoint_witness :
  10900 + @PAGINATION_SIZE first_page_mint
  ≤ last_block
      (self (iteration (E:=first_page_mint) (start first_page_mint [] [])).1).
Proof.
  destruct (iteration_checkpoint (E:=first_page_mint)
              (start first_page_mint [] [])
              (iteration (E:=first_page_mint) (start first_page_mint [] [])).1
              [] [mint_10900]) as [_ Hpush];
    [reflexivity|reflexivity|discriminate|reflexivity|].
  apply (Hpush mint_10900 10900).
  - left.
  - apply (bool_decide_unpack _). vm_compute. exact I.
  - discriminate.
  - vm_compute. reflexivity.
Defined.

(** X8, witness: the snapshot of the first page is stored, the rate history
    is rejected. *)
Lemma rate_history_failure_after_snapshot_witness :
  run_loop (E:=rate_history_rejected) 1000000 647952 1
    (start rate_history_rejected [] [])
  = Some (CRASHED (RuntimeError "rate history rejected"),
          @mkLoopState rate_history_rejected
            (@mkComputation rate_history_rejected 10900 []
               [LogDefaultLastBlock 10854])
            [[("mint"%string, Some 10900)]] 0).
Proof.
  apply (rate_history_failure_after_snapshot (E:=rate_history_rejected)
           1000000 647952 0 (start rate_history_rejected [] [])
           [] [mint_10900] [[("mint"%string, Some 10900)]]
           (RuntimeError "rate history rejected")).
  - reflexivity.
  - reflexivity.
  - discriminate.
  - vm_compute. reflexivity.
  - vm_compute. reflexivity.
  - vm_compute. reflexivity.
  - vm_compute. reflexivity.
Defined.

(** X10, witness: a deployment with a page size of 1000. *)
Lemma run_terminates_witness :
  ∃ t st',
    run (E:=first_page_mint) (S (Z.to_nat 637098)) (fresh first_page_mint [] 0) []
    = Some (t, st') ∧
    match t with
    | DONE => 647952 ≤ last_block (self st') ∧ retry st' < 1000000
    | RETRY_EXHAUSTED =>
        retry st' = 1000000 ∧
        last (log (self st')) = Some (LogMaxRetries (last_block (self st')))
    | CRASHED _ => True
    end.
Proof.
  apply (run_terminates (E:=first_page_mint)). simpl. lia.
Defined.

End FurtherConcreteRuns.
